(** * AgentCoreMemoryManager: a shallow embedding of
      [utils/agentcore_memory_manager.py]

    The session/memory manager coordinates two external stores: the
    AgentCore conversational event store and a DynamoDB side table holding
    session metadata.  The file is organised as follows.

    - [Str]: the string primitives the Python code uses (slices,
      [str.lower], the [in] substring test, [str.join]) and the four
      regular-expression substitutions of [_sanitize_actor_id].
    - [Env]: the outside world (event log, metadata table, clock, UUID
      source, injected service failures) together with a small
      state-and-exception monad in which the methods are written.
    - [Svc]: the operations of the memory client and of the table.
    - [Mgr]: the methods of [AgentCoreMemoryManager], one definition per
      Python method, with the same names, over the record of attributes
      the constructor leaves.
    - [Logic], [Spec], [Scenario]: the assertions used in the statements,
      the properties of the specification as predicates, and concrete
      managers and worlds.
    - [Init]: the constructor and the two methods it calls; [UI]: the part
      of the chat page that rebuilds a history from the stored turns.
    - [Props], [Examples]: the notions of the further properties and their
      concrete inputs.
    - the theorems, grouped by method.

    A Python [str] is modelled by the [string] of its code points, one
    character of the model for each: the model covers the texts whose code
    points are below 256 (Latin-1, which holds ASCII) and is not a UTF-8
    encoding, so a slice [s[:n]] counts in the model what it counts in
    Python.  Calls to [logger] have no effect on any value the methods
    return or store and are left out. *)

From Stdlib Require Import ZArith NArith Lia Ascii String Sorting.Sorted.
From stdpp Require Import base tactics option list strings pretty gmap.

Local Open Scope string_scope.
Local Open Scope Z_scope.

(* ===================================================================== *)
(** ** Strings                                                             *)
(* ===================================================================== *)

Module Str.

(** [c] is in the character class [a-zA-Z0-9]. *)
Definition is_alnum (c : ascii) : bool :=
  let n := nat_of_ascii c in
  ((48 <=? n) && (n <=? 57) || (65 <=? n) && (n <=? 90)
   || (97 <=? n) && (n <=? 122))%nat.

Definition is_underscore (c : ascii) : bool := Ascii.eqb c "_".
Definition is_hyphen (c : ascii) : bool := Ascii.eqb c "-".

(** [c] is in the character class [a-zA-Z0-9_-]. *)
Definition is_allowed (c : ascii) : bool :=
  is_alnum c || is_underscore c || is_hyphen c.

Fixpoint forall_chars (p : ascii -> bool) (s : string) : bool :=
  match s with
  | EmptyString => true
  | String c s' => p c && forall_chars p s'
  end.

(** [re.sub(r'[^a-zA-Z0-9_-]', '_', s)]: every character outside the
    class becomes an underscore. *)
Fixpoint sub_disallowed (s : string) : string :=
  match s with
  | EmptyString => EmptyString
  | String c s' =>
      String (if is_allowed c then c else "_"%char) (sub_disallowed s')
  end.

(** [re.sub(r'^[^a-zA-Z0-9]+', '', s)]: the pattern is anchored at the
    start, so the longest leading run of non-alphanumerics is removed. *)
Fixpoint strip_leading_non_alnum (s : string) : string :=
  match s with
  | EmptyString => EmptyString
  | String c s' => if is_alnum c then s else strip_leading_non_alnum s'
  end.

(** [re.sub(r'[^a-zA-Z0-9_-]+$', '', s)]: the leftmost match is the
    longest run of characters outside the class that reaches the end. *)
Fixpoint strip_trailing_disallowed (s : string) : string :=
  match s with
  | EmptyString => EmptyString
  | String c s' =>
      match strip_trailing_disallowed s' with
      | EmptyString => if is_allowed c then String c EmptyString
                       else EmptyString
      | r => String c r
      end
  end.

(** [re.sub(r'_+', '_', s)]: each maximal run of underscores becomes a
    single underscore. *)
Fixpoint collapse_underscores (s : string) : string :=
  match s with
  | EmptyString => EmptyString
  | String c s' =>
      if is_underscore c then
        match s' with
        | String c' _ =>
            if is_underscore c' then collapse_underscores s'
            else String c (collapse_underscores s')
        | EmptyString => String c EmptyString
        end
      else String c (collapse_underscores s')
  end.

(** [s[:n]] for a non-negative literal [n]: the first [n] code points. *)
Fixpoint str_take (n : nat) (s : string) : string :=
  match n, s with
  | S n', String c s' => String c (str_take n' s')
  | _, _ => EmptyString
  end.

(** [str.lower] on a code point below 256: the ASCII capitals and the
    Latin-1 capitals (192 to 222, the multiplication sign 215 apart) are
    moved up by 32; every other code point is kept. *)
Definition lower_char (c : ascii) : ascii :=
  let n := nat_of_ascii c in
  if ((65 <=? n) && (n <=? 90)
      || (192 <=? n) && (n <=? 222) && negb (n =? 215))%nat
  then ascii_of_nat (n + 32) else c.

Fixpoint lower (s : string) : string :=
  match s with
  | EmptyString => EmptyString
  | String c s' => String (lower_char c) (lower s')
  end.

(** [needle in s]. *)
Fixpoint contains (needle s : string) : bool :=
  String.prefix needle s ||
  match s with
  | EmptyString => false
  | String _ s' => contains needle s'
  end.

(** [sep.join(parts)]. *)
Fixpoint join (sep : string) (parts : list string) : string :=
  match parts with
  | [] => EmptyString
  | [p] => p
  | p :: rest => p ++ sep ++ join sep rest
  end.

(** Full match against [[A-Za-z0-9][A-Za-z0-9_-]*[A-Za-z0-9_-]]: a first
    alphanumeric, then at least one more character, all of them in the
    class [A-Za-z0-9_-]. *)
Definition matches_actor_pattern (s : string) : bool :=
  match s with
  | String c (String c' rest) =>
      is_alnum c && is_allowed c' && forall_chars is_allowed rest
  | _ => false
  end.

(** Full match against [[A-Za-z0-9][A-Za-z0-9_-]*]. *)
Definition matches_relaxed_pattern (s : string) : bool :=
  match s with
  | String c rest => is_alnum c && forall_chars is_allowed rest
  | EmptyString => false
  end.

(** Two adjacent characters both satisfying [p] occur in [s]. *)
Fixpoint has_adjacent (p : ascii -> bool) (s : string) : bool :=
  match s with
  | String c ((String c' _) as s') =>
      p c && p c' || has_adjacent p s'
  | _ => false
  end.

(** The separators of an actor identifier are [_] and [-]. *)
Definition is_separator (c : ascii) : bool := is_underscore c || is_hyphen c.

End Str.

(* ===================================================================== *)
(** ** The outside world and the monad of the methods                      *)
(* ===================================================================== *)

Module Env.

(** *** Event store records

    An event as [MemoryClient.list_events] returns it: a dictionary with
    the keys [eventId], [eventTimestamp] and [payload].  The manager
    reads every key below [payload] defensively ([in], [.get]), so each
    of them may be absent. *)

Record Content := { text : option string }.

Record Conversational :=
  { conv_role : option string; conv_content : option Content }.

Record PayloadEntry := { conversational : option Conversational }.

Record Event :=
  { eventId : string;
    eventTimestamp : option Z;
    payload : option (list PayloadEntry) }.

(** An event together with the key it was appended under. *)
Record StoredEvent :=
  { se_memory : string; se_actor : string; se_session : string;
    se_event : Event }.

(** *** Metadata rows of the table [customer-support-sessions]

    [last_updated] is the instant whose ISO-8601 rendering the code
    stores. *)
Record Row :=
  { user_id : string; session_id : string;
    last_message : string; last_response : string;
    last_updated : Z; message_count : Z }.

(** *** The world

    - [ev_log]: the append-only event log of the memory service;
    - [ev_next]: the counter the service draws event identifiers from;
    - [ev_order]: the order in which the service lists the events of a
      session (the manager does not rely on it and sorts again);
    - [table]: the metadata table, keyed by its HASH key [user_id] and
      its RANGE key [session_id] (see [_create_session_table]);
    - [clock]: the wall clock, in microseconds;
    - [uuid_gen], [uuid_ctr]: the source of [uuid.uuid4()];
    - [set_rank]: the place the interpreter gives each element of
      [set(l)] when the set is iterated; it depends on the hash seed of
      the process and on [l], so any order of the elements can occur;
    - [faults]: for each coming call to an external service, whether it
      raises; when the schedule is exhausted no call fails. *)
Record World :=
  { ev_log : list StoredEvent;
    ev_next : nat;
    ev_order : list StoredEvent -> list StoredEvent;
    table : gmap (string * string) Row;
    clock : Z;
    uuid_gen : nat -> string;
    uuid_ctr : nat;
    set_rank : list string -> string -> nat;
    faults : list bool }.

Definition with_log (l : list StoredEvent) (n : nat) (w : World) : World :=
  {| ev_log := l; ev_next := n; ev_order := ev_order w; table := table w;
     clock := clock w; uuid_gen := uuid_gen w; uuid_ctr := uuid_ctr w;
     set_rank := set_rank w; faults := faults w |}.

Definition with_table (t : gmap (string * string) Row) (w : World) : World :=
  {| ev_log := ev_log w; ev_next := ev_next w; ev_order := ev_order w;
     table := t; clock := clock w; uuid_gen := uuid_gen w;
     uuid_ctr := uuid_ctr w; set_rank := set_rank w; faults := faults w |}.

Definition with_clock (c : Z) (w : World) : World :=
  {| ev_log := ev_log w; ev_next := ev_next w; ev_order := ev_order w;
     table := table w; clock := c; uuid_gen := uuid_gen w;
     uuid_ctr := uuid_ctr w; set_rank := set_rank w; faults := faults w |}.

Definition with_uuid_ctr (n : nat) (w : World) : World :=
  {| ev_log := ev_log w; ev_next := ev_next w; ev_order := ev_order w;
     table := table w; clock := clock w; uuid_gen := uuid_gen w;
     uuid_ctr := n; set_rank := set_rank w; faults := faults w |}.

Definition with_faults (f : list bool) (w : World) : World :=
  {| ev_log := ev_log w; ev_next := ev_next w; ev_order := ev_order w;
     table := table w; clock := clock w; uuid_gen := uuid_gen w;
     uuid_ctr := uuid_ctr w; set_rank := set_rank w; faults := f |}.

(** *** Exceptions and the monad *)

Inductive Exn :=
| ServiceError          (* any error raised by boto3 or the memory client *)
| ParamValidationError  (* a request the client refuses to send *)
| AttributeError        (* a method called on [None] *)
| TypeError.            (* comparison of a [str] with a [datetime] *)

Inductive Res (A : Type) :=
| Ok (a : A)
| Raise (e : Exn).
Arguments Ok {A} a.
Arguments Raise {A} e.

Definition M (A : Type) : Type := World -> Res A * World.

Definition ret {A} (a : A) : M A := fun w => (Ok a, w).

Definition raise {A} (e : Exn) : M A := fun w => (Raise e, w).

Definition bind {A B} (m : M A) (k : A -> M B) : M B :=
  fun w =>
    match m w with
    | (Ok a, w') => k a w'
    | (Raise e, w') => (Raise e, w')
    end.

(** [try: body except Exception: handler].  The effects the body had
    before it raised are kept. *)
Definition try_except {A} (body : M A) (handler : Exn -> M A) : M A :=
  fun w =>
    match body w with
    | (Ok a, w') => (Ok a, w')
    | (Raise e, w') => handler e w'
    end.

(** Entry into an external service: consumes one entry of the failure
    schedule. *)
Definition service_call : M unit :=
  fun w =>
    match faults w with
    | [] => (Ok tt, w)
    | false :: fs => (Ok tt, with_faults fs w)
    | true :: fs => (Raise ServiceError, with_faults fs w)
    end.

(** [datetime.now()], [time.sleep] (in microseconds), [uuid.uuid4()] and
    the iteration order of the sets of the process. *)
Definition datetime_now : M Z := fun w => (Ok (clock w), w).

Definition set_order : M (list string -> string -> nat) :=
  fun w => (Ok (set_rank w), w).

Definition time_sleep (us : Z) : M unit :=
  fun w => (Ok tt, with_clock (clock w + us) w).

Definition uuid4 : M string :=
  fun w => (Ok (uuid_gen w (uuid_ctr w)), with_uuid_ctr (S (uuid_ctr w)) w).

End Env.

Declare Scope mgr_scope.
Delimit Scope mgr_scope with mgr.
Notation "'let*' x ':=' e1 'in' e2" :=
  (Env.bind e1 (fun x => e2))
  (at level 10, x name, e1 at level 100, e2 at level 200) : mgr_scope.
Notation "e1 ';;;' e2" :=
  (Env.bind e1 (fun _ => e2))
  (at level 100, e2 at level 200, right associativity) : mgr_scope.
Local Open Scope mgr_scope.

(* ===================================================================== *)
(** ** The two external services                                           *)
(* ===================================================================== *)

(** [bedrock_agentcore] and [boto3] are libraries the repository calls;
    this module records the behaviour of theirs the manager relies on.
    Every operation first enters the service ([service_call]), where the
    failure schedule of the world may make it raise. *)
Module Svc.
Import Env.

(** A stable sort for a total preorder given as a boolean test; the
    result of Python's [sorted] and of an ordered DynamoDB query. *)
Section Sort.
Context {A : Type} (le : A -> A -> bool).

Fixpoint insert_sorted (x : A) (l : list A) : list A :=
  match l with
  | [] => [x]
  | y :: l' => if le x y then x :: y :: l' else y :: insert_sorted x l'
  end.

Fixpoint stable_sort (l : list A) : list A :=
  match l with
  | [] => []
  | x :: l' => insert_sorted x (stable_sort l')
  end.
End Sort.

(** *** bedrock_agentcore's [MemoryClient] *)

Definition same_session (memory actor session : string) (se : StoredEvent)
  : bool :=
  String.eqb (se_memory se) memory && String.eqb (se_actor se) actor
  && String.eqb (se_session se) session.

(** A call with [memory_id=None] is rejected by the client. *)
Definition require_memory (memory_id : option string) : M string :=
  match memory_id with
  | Some mid => ret mid
  | None => raise ServiceError
  end.

(** The log entry of an event appended under a session key. *)
Definition stored (mid actor_id session_id : string) (ev : Event)
  : StoredEvent :=
  {| se_memory := mid; se_actor := actor_id; se_session := session_id;
     se_event := ev |}.

(** The event the service records for one [(text, role)] message; it
    keeps the timestamp it was given. *)
Definition conversational_event (id : nat) (event_timestamp : Z)
    (message : string * string) : Event :=
  {| eventId := "evt-" ++ pretty id;
     eventTimestamp := Some event_timestamp;
     payload :=
       Some [ {| conversational :=
                   Some {| conv_role := Some (snd message);
                           conv_content :=
                             Some {| text := Some (fst message) |} |} |} ] |}.

(** [create_event(memory_id, actor_id, session_id, messages=[(text, role)],
    event_timestamp)]: appends one event with a fresh identifier and a
    single conversational payload entry.  The client validates the
    request before it sends it: the text of a conversational payload has
    at least one character, so a message with an empty text is refused
    with [ParamValidationError] and nothing reaches the service. *)
Definition create_event (memory_id : option string)
    (actor_id session_id : string) (message : string * string)
    (event_timestamp : Z) : M unit :=
  if String.eqb (fst message) "" then raise ParamValidationError else
  service_call ;;;
  let* mid := require_memory memory_id in
  fun w =>
    let ev := conversational_event (ev_next w) event_timestamp message in
    let se := stored mid actor_id session_id ev in
    (Ok tt, with_log (ev_log w ++ [se]) (S (ev_next w)) w).

(** The events the log holds for one session. *)
Definition session_events (mid actor_id session_id : string) (w : World)
  : list StoredEvent :=
  List.filter (same_session mid actor_id session_id) (ev_log w).

(** [list_events(memory_id, actor_id, session_id, max_results)]: at most
    [max_results] events of the session, in the service's order. *)
Definition list_events (memory_id : option string)
    (actor_id session_id : string) (max_results : nat) : M (list Event) :=
  service_call ;;;
  let* mid := require_memory memory_id in
  fun w =>
    let found := session_events mid actor_id session_id w in
    (Ok (se_event <$> take max_results (ev_order w found)), w).

(** [delete_event(memoryId, sessionId, eventId, actorId)]: removes the
    event; an unknown event is an error. *)
Definition is_event (mid actor session eid : string) (se : StoredEvent)
  : bool :=
  same_session mid actor session se && String.eqb (eventId (se_event se)) eid.

Definition delete_event (memoryId : option string)
    (sessionId eventId_ actorId : string) : M unit :=
  service_call ;;;
  let* mid := require_memory memoryId in
  fun w =>
    if existsb (is_event mid actorId sessionId eventId_) (ev_log w)
    then (Ok tt,
          with_log
            (List.filter (fun se => negb (is_event mid actorId sessionId
                                                   eventId_ se)) (ev_log w))
            (ev_next w) w)
    else (Raise ServiceError, w).

(** *** The DynamoDB table resource *)

(** [Table.load()]. *)
Definition table_load : M unit := service_call.

(** [Table.get_item(Key={'user_id': u, 'session_id': s})]: the row, if
    there is one (the key [Item] of the response). *)
Definition get_item (u s : string) : M (option Row) :=
  service_call ;;;
  fun w => (Ok (table w !! (u, s)), w).

(** [Table.put_item(Item=row)]: creates or replaces the row with the
    key of [row]. *)
Definition put_item (row : Row) : M unit :=
  service_call ;;;
  fun w =>
    (Ok tt, with_table (<[(user_id row, session_id row) := row]> (table w)) w).

(** [Table.delete_item(Key=...)]: deleting an absent row succeeds. *)
Definition delete_item (u s : string) : M unit :=
  service_call ;;;
  fun w => (Ok tt, with_table (delete (u, s) (table w)) w).

(** [Table.query(KeyConditionExpression=Key('user_id').eq(u),
    ScanIndexForward=False, Limit=limit)].  A query returns the items of
    the partition ordered by the RANGE key, here [session_id];
    [ScanIndexForward=False] asks for the descending order.  [Limit] must
    be at least 1. *)
Definition sort_key_desc (kr1 kr2 : string * string * Row) : bool :=
  String.leb (snd (fst kr2)) (snd (fst kr1)).

Definition partition (u : string) (t : gmap (string * string) Row)
  : list (string * string * Row) :=
  List.filter (fun kr => String.eqb (fst (fst kr)) u) (map_to_list t).

Definition query (u : string) (limit : Z) : M (list Row) :=
  service_call ;;;
  if limit <? 1 then raise ServiceError
  else fun w =>
    (Ok (take (Z.to_nat limit)
              (snd <$> stable_sort sort_key_desc (partition u (table w)))),
     w).

End Svc.

(* ===================================================================== *)
(** ** The methods of [AgentCoreMemoryManager]                             *)
(* ===================================================================== *)

Module Mgr.
Import Env Svc.

(** Handles on the two services. *)
Inductive MemoryClient := MkMemoryClient (region_name : string).
Inductive Table := MkTable (table_name : string).

(** The attributes of the manager object the methods read.  They are set
    by the constructor and never assigned afterwards: [memory_client] and
    [memory_id] stay [None] when the client or the memory resource could
    not be obtained, and [initialized] is set to [True] only after both
    were assigned. *)
Record Manager :=
  { region : string;
    memory_client : option MemoryClient;
    memory_id : option string;
    initialized : bool;
    session_table : option Table }.

(** A message dictionary [{'role', 'content', 'timestamp'}];
    [timestamp = None] stands for the default [''] of
    [event.get('eventTimestamp', '')]. *)
Record Turn :=
  { role : string; content : string; timestamp : option Z }.

Record Preferences :=
  { communication_style : string;
    preferred_topics : list string;
    common_issues : list string;
    response_length : string }.

(** [l[start:]] with Python's treatment of negative and oversized
    indices. *)
Definition slice_from {A} (start : Z) (l : list A) : list A :=
  let len := Z.of_nat (length l) in
  let i := if start <? 0 then Z.max 0 (start + len) else Z.min start len in
  drop (Z.to_nat i) l.

(** [self.memory_client.f(...)]: an attribute access on [None] raises. *)
Definition with_client {A} (self : Manager) (call : M A) : M A :=
  match memory_client self with
  | Some _ => call
  | None => raise AttributeError
  end.

(** *** [_sanitize_actor_id] *)
Definition _sanitize_actor_id (user_id : string) : string :=
  let sanitized := Str.sub_disallowed user_id in
  let sanitized := Str.strip_leading_non_alnum sanitized in
  let sanitized := Str.strip_trailing_disallowed sanitized in
  let sanitized := Str.collapse_underscores sanitized in
  match sanitized with
  | EmptyString => "user"
  | _ => sanitized
  end.

(** *** [_update_session_metadata] *)
Definition _update_session_metadata (self : Manager)
    (user_id session_id last_message response : string) : M unit :=
  match session_table self with
  | None => ret tt
  | Some _ =>
      try_except
        (let* timestamp := datetime_now in
         let* message_count :=
           try_except
             (let* existing := get_item user_id session_id in
              ret (match existing with
                   | Some item => Env.message_count item
                   | None => 0
                   end + 1))
             (fun _ => ret 1) in
         put_item
           {| Env.user_id := user_id;
              Env.session_id := session_id;
              Env.last_message := Str.str_take 100 last_message;
              Env.last_response := Str.str_take 100 response;
              Env.last_updated := timestamp;
              Env.message_count := message_count |})
        (fun _ => ret tt)
  end.

(** *** [store_message] *)
Definition store_message (self : Manager)
    (user_id session_id message response : string) : M unit :=
  if negb (initialized self) then ret tt
  else
    try_except
      (let actor_id := _sanitize_actor_id user_id in
       let* base_timestamp := datetime_now in
       with_client self
         (create_event (memory_id self) actor_id session_id
                       (message, "USER") base_timestamp) ;;;
       time_sleep 100000 ;;;
       let* response_timestamp := datetime_now in
       with_client self
         (create_event (memory_id self) actor_id session_id
                       (response, "ASSISTANT") response_timestamp) ;;;
       _update_session_metadata self user_id session_id message response)
      (fun _ => ret tt).

(** *** [get_session_messages] *)

(** The body of the loop over the listed events: the message an event
    contributes, if any. *)
Definition parse_event (event : Event) : option Turn :=
  match payload event with
  | Some (entry :: _) =>
      match conversational entry with
      | Some conv =>
          let role_str := default "USER" (conv_role conv) in
          let content :=
            match conv_content conv with
            | Some c => default "" (text c)
            | None => ""
            end in
          match content with
          | EmptyString => None
          | _ =>
              Some {| role := if String.eqb role_str "USER" then "user"
                              else "assistant";
                      content := content;
                      timestamp := eventTimestamp event |}
          end
      | None => None
      end
  | _ => None
  end.

Fixpoint collect_messages (events : list Event) : list Turn :=
  match events with
  | [] => []
  | event :: rest =>
      match parse_event event with
      | Some msg => msg :: collect_messages rest
      | None => collect_messages rest
      end
  end.

(** The sort keys of [sorted(messages, key=lambda x: x.get('timestamp',
    ''))] are [datetime] objects or the string ['']; comparing one with
    the other raises [TypeError]. *)
Definition same_key_type (a b : option Z) : bool :=
  match a, b with
  | Some _, Some _ | None, None => true
  | _, _ => false
  end.

Definition timestamp_le (a b : Turn) : bool :=
  match timestamp a, timestamp b with
  | Some x, Some y => x <=? y
  | _, _ => true
  end.

Definition sorted_by_timestamp (messages : list Turn) : M (list Turn) :=
  match messages with
  | [] => ret []
  | m :: rest =>
      if forallb (fun m' => same_key_type (timestamp m) (timestamp m')) rest
      then ret (stable_sort timestamp_le messages)
      else raise TypeError
  end.

Definition get_session_messages (self : Manager)
    (user_id session_id : string) : M (list Turn) :=
  if negb (initialized self) then ret []
  else
    try_except
      (let actor_id := _sanitize_actor_id user_id in
       let* events :=
         with_client self
           (list_events (memory_id self) actor_id session_id 100) in
       let messages := collect_messages events in
       sorted_by_timestamp messages)
      (fun _ => ret []).

(** *** [get_conversation_context] *)
Definition newline : string := String (ascii_of_nat 10) EmptyString.

Definition render (msg : Turn) : string :=
  let role := if String.eqb (role msg) "user" then "Human"
              else "Assistant" in
  let content := Str.str_take 200 (content msg) in
  role ++ ": " ++ content.

Definition get_conversation_context (self : Manager)
    (user_id session_id query : string) (max_messages : Z) : M string :=
  let* messages := get_session_messages self user_id session_id in
  let recent_messages :=
    match messages with
    | [] => []
    | _ => slice_from (- max_messages) messages
    end in
  let context_parts := render <$> recent_messages in
  ret (Str.join newline context_parts).

(** *** [get_user_sessions] *)
Definition get_user_sessions (self : Manager) (user_id : string)
    (limit : Z) : M (list Row) :=
  match session_table self with
  | None => ret []
  | Some _ =>
      try_except
        (table_load ;;;
         let* sessions := Svc.query user_id limit in
         ret sessions)
        (fun _ => ret [])
  end.

(** *** [get_user_preferences] *)
Definition default_preferences : Preferences :=
  {| communication_style := "professional";
     preferred_topics := [];
     common_issues := [];
     response_length := "medium" |}.

Definition add_issue (issue : string) (p : Preferences) : Preferences :=
  {| communication_style := communication_style p;
     preferred_topics := preferred_topics p;
     common_issues := common_issues p ++ [issue];
     response_length := response_length p |}.

Definition add_topic (topic : string) (p : Preferences) : Preferences :=
  {| communication_style := communication_style p;
     preferred_topics := preferred_topics p ++ [topic];
     common_issues := common_issues p;
     response_length := response_length p |}.

(** The body of the loop over the user messages. *)
Definition note_message (preferences : Preferences) (msg : Turn)
  : Preferences :=
  let content := Str.lower (content msg) in
  if Str.contains "warranty" content then
    add_issue "warranty" preferences
  else if Str.contains "profile" content || Str.contains "account" content
  then add_issue "account" preferences
  else if Str.contains "mars" content || Str.contains "weather" content
  then add_topic "space_data" preferences
  else preferences.

(** [list(set(l))]: the elements of [l] without repetition, in the order
    in which the set is iterated.  Python does not specify that order: it
    is the order of the places [rank] the process gives the elements. *)
Definition list_set (rank : list string -> string -> nat) (l : list string)
  : list string :=
  stable_sort (fun a b => (rank l a <=? rank l b)%nat) (remove_dups l).

Definition remove_duplicates (rank : list string -> string -> nat)
    (p : Preferences) : Preferences :=
  {| communication_style := communication_style p;
     preferred_topics := list_set rank (preferred_topics p);
     common_issues := list_set rank (common_issues p);
     response_length := response_length p |}.

(** The loop extending [all_messages] with the messages of each
    session. *)
Fixpoint gather_messages (self : Manager) (user_id : string)
    (sessions : list Row) (all_messages : list Turn) : M (list Turn) :=
  match sessions with
  | [] => ret all_messages
  | session :: rest =>
      let* session_messages :=
        get_session_messages self user_id (Env.session_id session) in
      gather_messages self user_id rest (all_messages ++ session_messages)
  end.

Definition is_user (msg : Turn) : bool := String.eqb (role msg) "user".

Definition get_user_preferences (self : Manager) (user_id : string)
  : M Preferences :=
  let* sessions := get_user_sessions self user_id 5 in
  let* all_messages := gather_messages self user_id sessions [] in
  let user_messages := List.filter is_user all_messages in
  let preferences :=
    fold_left note_message (slice_from (-20) user_messages)
              default_preferences in
  let* rank := set_order in
  ret (remove_duplicates rank preferences).

(** *** [generate_follow_up_questions] *)
Definition generate_follow_up_questions (self : Manager)
    (user_id current_query : string) : M (list string) :=
  let* preferences := get_user_preferences self user_id in
  let follow_ups : list string := [] in
  let follow_ups :=
    if bool_decide ("warranty" ∈ common_issues preferences) then
      (follow_ups ++
       ["Would you like me to check the warranty status of any other products?"])%list
    else follow_ups in
  let follow_ups :=
    if bool_decide ("account" ∈ common_issues preferences) then
      (follow_ups ++
       ["Do you need help updating your account information?"])%list
    else follow_ups in
  let current_lower := Str.lower current_query in
  let follow_ups :=
    if Str.contains "warranty" current_lower then
      (follow_ups ++
       ["Would you like me to explain the warranty coverage details?";
        "Do you need help with a warranty claim process?"])%list
    else if Str.contains "profile" current_lower
            || Str.contains "customer" current_lower then
      (follow_ups ++
       ["Would you like to update any of your profile information?";
        "Do you need help with your communication preferences?"])%list
    else if Str.contains "mars" current_lower then
      (follow_ups ++
       ["Would you like to know about Mars atmospheric conditions?";
        "Are you interested in historical Mars weather data?"])%list
    else follow_ups in
  ret (take 3 follow_ups).

(** *** [create_session] *)
Definition create_session (self : Manager) (user_id : string) : M string :=
  let* u := uuid4 in
  let session_id := "session-" ++ u in
  match session_table self with
  | Some _ =>
      try_except
        (let* timestamp := datetime_now in
         put_item
           {| Env.user_id := user_id;
              Env.session_id := session_id;
              Env.last_message := "New session started";
              Env.last_response := "";
              Env.last_updated := timestamp;
              Env.message_count := 0 |})
        (fun _ => ret tt)
  | None => ret tt
  end ;;;
  ret session_id.

(** *** [delete_session] *)

(** The loop deleting the listed events one by one. *)
Fixpoint delete_events (self : Manager) (session_id actor_id : string)
    (events : list Event) (deleted_count : Z) : M Z :=
  match events with
  | [] => ret deleted_count
  | event :: rest =>
      let* deleted_count :=
        try_except
          (with_client self
             (delete_event (memory_id self) session_id (eventId event)
                           actor_id) ;;;
           ret (deleted_count + 1))
          (fun _ => ret deleted_count) in
      delete_events self session_id actor_id rest deleted_count
  end.

Definition delete_session (self : Manager) (user_id session_id : string)
  : M bool :=
  try_except
    (let actor_id := _sanitize_actor_id user_id in
     let* events :=
       with_client self
         (list_events (memory_id self) actor_id session_id 100) in
     let* deleted_count :=
       delete_events self session_id actor_id events 0 in
     match session_table self with
     | Some _ =>
         try_except (delete_item user_id session_id) (fun _ => ret tt)
     | None => ret tt
     end ;;;
     ret (0 <? deleted_count))
    (fun _ => ret false).

(** *** [is_available] *)
Definition is_available (self : Manager) : bool :=
  initialized self && bool_decide (is_Some (memory_client self)).

End Mgr.

(* ===================================================================== *)
(** ** Assertions about computations                                       *)
(* ===================================================================== *)

Module Logic.
Import Env.

(** [m] returns a value from every world: no exception leaves it. *)
Definition total {A} (m : M A) : Prop :=
  forall w, exists a w', m w = (Ok a, w').

(** [w'] differs from [w] in the failure schedule at most: both stores,
    the clock, the UUID source and the order of sets are the same. *)
Definition frame (w w' : World) : Prop :=
  ev_log w' = ev_log w /\ ev_next w' = ev_next w /\
  ev_order w' = ev_order w /\ table w' = table w /\
  clock w' = clock w /\ uuid_gen w' = uuid_gen w /\
  uuid_ctr w' = uuid_ctr w /\ set_rank w' = set_rank w.

(** [m] writes no state. *)
Definition read_only {A} (m : M A) : Prop :=
  forall w, frame w (snd (m w)).

(** The next external call does not fail. *)
Definition next_call_succeeds (w : World) : bool :=
  match faults w with
  | true :: _ => false
  | _ => true
  end.

End Logic.

(* ===================================================================== *)
(** ** Properties the specification states, as predicates                  *)
(* ===================================================================== *)

Module Spec.
Import Env Svc Mgr.

(** The sanitization contract of the specification: non-empty, only
    alphanumerics, hyphens and underscores, a full match of
    [[A-Za-z0-9][A-Za-z0-9_-]*[A-Za-z0-9_-]], and no two adjacent
    separators. *)
Definition actor_id_contract (a : string) : Prop :=
  a <> "" /\
  Str.forall_chars Str.is_allowed a = true /\
  Str.matches_actor_pattern a = true /\
  Str.has_adjacent Str.is_separator a = false.

(** What [_sanitize_actor_id] establishes: as above, but the pattern is
    [[A-Za-z0-9][A-Za-z0-9_-]*] and only underscores are never
    adjacent. *)
Definition actor_id_guarantee (a : string) : Prop :=
  a <> "" /\
  Str.forall_chars Str.is_allowed a = true /\
  Str.matches_relaxed_pattern a = true /\
  Str.has_adjacent Str.is_underscore a = false.

(** The row [create_session] puts. *)
Definition initial_row (user_id session_id : string) (now : Z) : Row :=
  {| Env.user_id := user_id;
     Env.session_id := session_id;
     Env.last_message := "New session started";
     Env.last_response := "";
     Env.last_updated := now;
     Env.message_count := 0 |}.

(** The most recent [n] elements of a list ordered oldest first. *)
Definition last_n {A} (n : nat) (l : list A) : list A :=
  drop (length l - n) l.

(** A category of the preference snapshot: an entry of [common_issues]
    or of [preferred_topics]. *)
Inductive Category :=
| Issue (name : string)
| Topic (name : string).

(** The category a message is filed under: the first that matches, in the
    order warranty, profile/account, mars/weather; the match is a
    case-insensitive substring test. *)
Definition first_category (text : string) : option Category :=
  let t := Str.lower text in
  if Str.contains "warranty" t then Some (Issue "warranty")
  else if Str.contains "profile" t || Str.contains "account" t
  then Some (Issue "account")
  else if Str.contains "mars" t || Str.contains "weather" t
  then Some (Topic "space_data")
  else None.

Definition issue_of (msg : Turn) : option string :=
  match first_category (content msg) with
  | Some (Issue x) => Some x
  | _ => None
  end.

Definition topic_of (msg : Turn) : option string :=
  match first_category (content msg) with
  | Some (Topic x) => Some x
  | _ => None
  end.

(** The canned suggestions drawn from the history of the user. *)
Definition history_suggestions (p : Preferences) : list string :=
  ((if bool_decide ("warranty" ∈ common_issues p)
    then ["Would you like me to check the warranty status of any other products?"]
    else []) ++
   (if bool_decide ("account" ∈ common_issues p)
    then ["Do you need help updating your account information?"]
    else []))%list.

(** The canned suggestions drawn from the current query. *)
Definition query_suggestions (current_query : string) : list string :=
  let q := Str.lower current_query in
  if Str.contains "warranty" q then
    ["Would you like me to explain the warranty coverage details?";
     "Do you need help with a warranty claim process?"]
  else if Str.contains "profile" q || Str.contains "customer" q then
    ["Would you like to update any of your profile information?";
     "Do you need help with your communication preferences?"]
  else if Str.contains "mars" q then
    ["Would you like to know about Mars atmospheric conditions?";
     "Are you interested in historical Mars weather data?"]
  else [].

(** The turns the log holds for a session: what a listing of the whole
    session would let [get_session_messages] return. *)
Definition retrievable (mid actor_id session_id : string) (w : World)
  : list Turn :=
  collect_messages (se_event <$> session_events mid actor_id session_id w).

(** The stored events that none of the identifiers of [events] names,
    for the session [(mid, actor, sid)]. *)
Definition survives (mid sid actor : string) (events : list Event)
    (se : StoredEvent) : bool :=
  forallb (fun e => negb (is_event mid actor sid (eventId e) se)) events.

End Spec.

(* ===================================================================== *)
(** ** Concrete managers and worlds                                        *)
(* ===================================================================== *)

Module Scenario.
Import Env Svc Mgr.

Definition uuids (n : nat) : string :=
  match n with
  | O => "f47ac10b-58cc-4372-a567-0e02b2c3d479"
  | S O => "1b9d6bcd-bbfd-4b2d-9b5d-ab8dfbbd4bed"
  | _ => "6ec0bd7f-11c0-43da-975e-2a8ad9ebae0b"
  end.

(** Both stores empty, nothing fails, the service lists the newest event
    first, a set is iterated in the order its elements were added. *)
Definition empty_world : World :=
  {| ev_log := []; ev_next := 0; ev_order := @rev StoredEvent;
     table := ∅; clock := 1700000000000000;
     uuid_gen := uuids; uuid_ctr := 0; set_rank := fun _ _ => 0%nat;
     faults := [] |}.

(** A manager whose constructor attached to both stores. *)
Definition manager : Manager :=
  {| region := "us-east-1";
     memory_client := Some (MkMemoryClient "us-east-1");
     memory_id := Some "customerSupportMemory-a1b2c3";
     initialized := true;
     session_table := Some (MkTable "customer-support-sessions") |}.

(** A manager whose constructor could not import [bedrock_agentcore]: the
    memory is disabled, the table is attached. *)
Definition degraded_manager : Manager :=
  {| region := "us-east-1";
     memory_client := None;
     memory_id := None;
     initialized := false;
     session_table := Some (MkTable "customer-support-sessions") |}.

(** The world a computation leaves. *)
Definition after {A} (m : M A) (w : World) : World := snd (m w).

(** [n] question/answer turns stored in one session. *)
Fixpoint chat (user_id session_id : string) (n : nat) (w : World) : World :=
  match n with
  | O => w
  | S n' =>
      after (store_message manager user_id session_id
                           "where is my order?" "It ships tomorrow.")
            (chat user_id session_id n' w)
  end.

(** Two sessions of one user, created a minute apart. *)
Definition two_sessions : World :=
  after (create_session manager "alice")
        (after (time_sleep 60000000)
               (after (create_session manager "alice") empty_world)).

(** Two sessions of one user.  In ["session-a"] the user first asks to
    update an account and then asks 19 times about an order; an hour
    later, in ["session-b"], the user asks about a warranty and then about
    the weather on Mars. *)
Definition two_histories : World :=
  after (store_message manager "alice" "session-b"
                       "mars weather" "Sol 4021: -63 C.")
    (after (store_message manager "alice" "session-b"
                          "check my warranty status" "It is active.")
       (after (time_sleep 3600000000)
          (chat "alice" "session-a" 19
             (after (store_message manager "alice" "session-a"
                                   "update my account email" "Done.")
                    empty_world)))).

(** One session in which the user asked about a warranty, then about an
    account, then about Mars, in three separate messages. *)
Definition three_topics : World :=
  let sid := "session-f47ac10b-58cc-4372-a567-0e02b2c3d479" in
  after (store_message manager "alice" sid "mars weather" "Sol 4021: -63 C.")
    (after (store_message manager "alice" sid "update my account email" "Done.")
       (after (store_message manager "alice" sid
                             "check my warranty status" "It is active.")
          (after (create_session manager "alice") empty_world))).

End Scenario.

(* ===================================================================== *)
(** ** The constructor                                                     *)
(* ===================================================================== *)

(** [__init__], [_initialize_agentcore], [_ensure_session_table_exists]
    and [_create_session_table].  They run against the control plane of
    the two services: the memory resources of the account and the set of
    DynamoDB tables.  The methods are written in state-passing style: each
    takes the manager under construction and the cloud and returns
    both. *)
Module Init.
Import Env Mgr.

(** A memory resource as [list_memories] and [create_memory_and_wait]
    return it; the code reads its key [id] only. *)
Record MemorySummary := { mem_id : option string }.

(** [list_memories] answers with a dictionary holding the key [memories]
    or with the list itself; the code accepts both. *)
Inductive MemoriesResponse :=
| AsDict (memories_key : option (list MemorySummary))
| AsList (memories_list : list MemorySummary).

(** - [sdk_installed]: whether [bedrock_agentcore] can be imported;
    - [memories]: the memory resources of the account, oldest first;
    - [list_as_dict]: the shape of the answer of [list_memories];
    - [id_suffix]: the suffix the service appends to the name of the
      [n]-th memory to form its identifier;
    - [tables]: the names of the existing DynamoDB tables;
    - [cloud_faults]: for each coming call, whether it raises (an error
      other than "resource not found"); an exhausted schedule means no
      failure. *)
Record Cloud :=
  { sdk_installed : bool;
    memories : list MemorySummary;
    list_as_dict : bool;
    id_suffix : nat -> string;
    tables : gset string;
    cloud_faults : list bool }.

Definition with_memories (l : list MemorySummary) (c : Cloud) : Cloud :=
  {| sdk_installed := sdk_installed c; memories := l;
     list_as_dict := list_as_dict c; id_suffix := id_suffix c;
     tables := tables c; cloud_faults := cloud_faults c |}.

Definition with_tables (t : gset string) (c : Cloud) : Cloud :=
  {| sdk_installed := sdk_installed c; memories := memories c;
     list_as_dict := list_as_dict c; id_suffix := id_suffix c;
     tables := t; cloud_faults := cloud_faults c |}.

Definition with_cloud_faults (f : list bool) (c : Cloud) : Cloud :=
  {| sdk_installed := sdk_installed c; memories := memories c;
     list_as_dict := list_as_dict c; id_suffix := id_suffix c;
     tables := tables c; cloud_faults := f |}.

(** Entry into a service: whether the call raises, and the cloud with the
    schedule advanced. *)
Definition cloud_call (c : Cloud) : bool * Cloud :=
  match cloud_faults c with
  | [] => (false, c)
  | failed :: fs => (failed, with_cloud_faults fs c)
  end.

(** [MemoryClient.list_memories()]. *)
Definition list_memories (c : Cloud) : option MemoriesResponse * Cloud :=
  let (failed, c') := cloud_call c in
  if failed then (None, c')
  else (Some (if list_as_dict c' then AsDict (Some (memories c'))
              else AsList (memories c')), c').

(** [MemoryClient.create_memory_and_wait(name=..., description=...,
    strategies=[], event_expiry_days=90)]: the new resource, whose
    identifier is the name followed by a suffix of the service (the lookup
    of an existing memory by name relies on this). *)
Definition create_memory_and_wait (name : string) (c : Cloud)
  : option MemorySummary * Cloud :=
  let (failed, c') := cloud_call c in
  if failed then (None, c')
  else
    let memory :=
      {| mem_id := Some (name ++ "-" ++ id_suffix c' (length (memories c'))) |} in
    (Some memory, with_memories (memories c' ++ [memory]) c').

Definition set_memory_client (v : option MemoryClient) (self : Manager)
  : Manager :=
  {| region := region self; memory_client := v; memory_id := memory_id self;
     initialized := initialized self; session_table := session_table self |}.

Definition set_memory_id (v : option string) (self : Manager) : Manager :=
  {| region := region self; memory_client := memory_client self;
     memory_id := v; initialized := initialized self;
     session_table := session_table self |}.

Definition set_initialized (v : bool) (self : Manager) : Manager :=
  {| region := region self; memory_client := memory_client self;
     memory_id := memory_id self; initialized := v;
     session_table := session_table self |}.

Definition set_session_table (v : option Table) (self : Manager) : Manager :=
  {| region := region self; memory_client := memory_client self;
     memory_id := memory_id self; initialized := initialized self;
     session_table := v |}.

Definition memory_name : string := "customerSupportMemory".

Definition session_table_name : string := "customer-support-sessions".

(** [memories_response.get('memories', []) if isinstance(memories_response,
    dict) else memories_response]. *)
Definition memories_of (response : MemoriesResponse) : list MemorySummary :=
  match response with
  | AsDict (Some l) => l
  | AsDict None => []
  | AsList l => l
  end.

(** [memory_name in m.get('id', '')]. *)
Definition names_memory (m : MemorySummary) : bool :=
  Str.contains memory_name (default "" (mem_id m)).

(** *** [_initialize_agentcore] *)
Definition _initialize_agentcore (self : Manager) (c : Cloud)
  : Manager * Cloud :=
  if negb (sdk_installed c) then
    (* except ImportError *)
    (set_initialized false self, c)
  else
    (* self.memory_client = MemoryClient(region_name=self.region) *)
    let (failed, c) := cloud_call c in
    if failed then (set_initialized false self, c)
    else
      let self := set_memory_client (Some (MkMemoryClient (region self))) self in
      match list_memories c with
      | (None, c) => (set_initialized false self, c)
      | (Some memories_response, c) =>
          let memories_list := memories_of memories_response in
          match List.find names_memory memories_list with
          | Some existing_memory =>
              match mem_id existing_memory with
              | Some id_ =>
                  (set_initialized true (set_memory_id (Some id_) self), c)
              | None => (set_initialized false self, c)
              end
          | None =>
              match create_memory_and_wait memory_name c with
              | (Some memory, c) =>
                  match mem_id memory with
                  | Some id_ =>
                      (set_initialized true (set_memory_id (Some id_) self), c)
                  | None => (set_initialized false self, c)
                  end
              | (None, c) => (set_initialized false self, c)
              end
          end
      end.

(** *** [_create_session_table] *)
Definition _create_session_table (self : Manager) (c : Cloud)
  : Manager * Cloud :=
  (* self.session_table = self.dynamodb.create_table(...) *)
  let (failed, c) := cloud_call c in
  if failed || bool_decide (session_table_name ∈ tables c) then (self, c)
  else
    let c := with_tables ({[session_table_name]} ∪ tables c) c in
    let self := set_session_table (Some (MkTable session_table_name)) self in
    (* self.session_table.wait_until_exists() *)
    let (_, c) := cloud_call c in
    (self, c).

(** *** [_ensure_session_table_exists] *)
Definition _ensure_session_table_exists (self : Manager) (c : Cloud)
  : Manager * Cloud :=
  (* self.session_table = self.dynamodb.Table(self.session_table_name) *)
  let self := set_session_table (Some (MkTable session_table_name)) self in
  (* self.session_table.load() *)
  let (failed, c) := cloud_call c in
  if failed then (self, c)
  else if bool_decide (session_table_name ∈ tables c) then (self, c)
  else
    (* "ResourceNotFoundException" in str(e) *)
    _create_session_table self c.

(** *** [__init__] and [create_agentcore_memory_manager] *)
Definition __init__ (region : string) (c : Cloud) : Manager * Cloud :=
  let self :=
    {| Mgr.region := region; memory_client := None; memory_id := None;
       initialized := false; session_table := None |} in
  let (self, c) := _initialize_agentcore self c in
  _ensure_session_table_exists self c.

Definition create_agentcore_memory_manager (region : string) (c : Cloud)
  : Manager * Cloud :=
  __init__ region c.

End Init.

(* ===================================================================== *)
(** ** The chat page                                                       *)
(* ===================================================================== *)

(** The part of [streamlit_ui.py] that uses the manager: switching to a
    stored session rebuilds the chat history from its messages. *)
Module UI.
Import Env Mgr.

(** An entry [{'query': ..., 'response': ...}] of
    [st.session_state.chat_history]. *)
Record ChatEntry := { query : string; response : string }.

(** The loop that reconstructs the chat history: a user message is
    remembered as the current query, an assistant message is paired with
    the current query when there is a non-empty one. *)
Fixpoint reconstruct_chat_history (messages : list Turn)
    (current_query : option string) (chat_history : list ChatEntry)
  : list ChatEntry :=
  match messages with
  | [] => chat_history
  | msg :: rest =>
      if String.eqb (role msg) "user" then
        reconstruct_chat_history rest (Some (content msg)) chat_history
      else if String.eqb (role msg) "assistant" then
        match current_query with
        | Some (String c q) =>
            reconstruct_chat_history rest None
              (chat_history ++ [ {| query := String c q;
                                    response := content msg |} ])
        | _ => reconstruct_chat_history rest current_query chat_history
        end
      else reconstruct_chat_history rest current_query chat_history
  end.

(** Switching to a session: [get_session_messages], then the loop. *)
Definition load_session (self : Manager) (user_id session_id : string)
  : M (list ChatEntry) :=
  let* messages := get_session_messages self user_id session_id in
  ret (reconstruct_chat_history messages None []).

End UI.

(* ===================================================================== *)
(** ** Notions for the further properties                                  *)
(* ===================================================================== *)

(** The vocabulary of the properties proved beyond the documented ones:
    what the code maintains about actor identifiers, the event log, the
    metadata table, the turns it returns and the manager it constructs. *)
Module Props.
Import Str Env Svc Mgr Logic Init.

(** *** Actor identifiers *)

(** An identifier [_sanitize_actor_id] has nothing to do on: it starts
    with a letter or digit, holds letters, digits, hyphens and underscores
    only, and no two underscores in a row. *)
Definition valid_actor_id (a : string) : bool :=
  match a with
  | String c _ => is_alnum c
  | EmptyString => false
  end && forall_chars is_allowed a && negb (has_adjacent is_underscore a).

(** *** The event log *)

(** The events of the session [(user_id, session_id)] of the memory the
    manager is attached to. *)
Definition in_session (self : Manager) (u s : string) (se : StoredEvent)
  : Prop :=
  memory_id self = Some (se_memory se) /\
  se_actor se = _sanitize_actor_id u /\ se_session se = s.

(** [w'] has the log of [w] without some events of the session. *)
Definition only_session_removed (self : Manager) (u s : string)
    (w w' : World) : Prop :=
  exists keep : StoredEvent -> bool,
    ev_log w' = List.filter keep (ev_log w) /\
    forall se, keep se = false -> in_session self u s se.

(** *** The metadata table *)

(** The row [_update_session_metadata] puts. *)
Definition metadata_row (user_id session_id last_message response : string)
    (now count : Z) : Row :=
  {| Env.user_id := user_id;
     Env.session_id := session_id;
     Env.last_message := Str.str_take 100 last_message;
     Env.last_response := Str.str_take 100 response;
     Env.last_updated := now;
     Env.message_count := count |}.

(** The message count stored for a session, 0 when there is no row. *)
Definition stored_count (user_id session_id : string) (w : World) : Z :=
  match table w !! (user_id, session_id) with
  | Some item => Env.message_count item
  | None => 0
  end.

(** The layout every metadata row has: it is stored under its own key, its
    previews have at most 100 characters and its count is not negative. *)
Definition row_ok (k : string * string) (r : Row) : Prop :=
  k = (Env.user_id r, Env.session_id r) /\
  (String.length (Env.last_message r) <= 100)%nat /\
  (String.length (Env.last_response r) <= 100)%nat /\
  0 <= Env.message_count r.

Definition table_ok (w : World) : Prop := map_Forall row_ok (table w).



(** *** Turns *)

(** The shape of a turn handed to the caller. *)
Definition well_formed_turn (t : Turn) : Prop :=
  (role t = "user" \/ role t = "assistant") /\ content t <> "".

(** The sort keys of two turns can be compared. *)
Definition same_kind (m t : Turn) : Prop :=
  same_key_type (timestamp m) (timestamp t) = true.

(** What every answer of [get_session_messages] looks like. *)
Definition shaped (w : World) (msgs : list Turn) (w' : World) : Prop :=
  frame w w' /\
  (length msgs <= 100)%nat /\
  Forall well_formed_turn msgs /\
  StronglySorted (fun a b => timestamp_le a b = true) msgs.



(** *** Conversations *)

(** One exchange of a conversation: the time that passes before it (in
    microseconds), the query of the user and the reply stored with it. *)
Definition Exchange : Type := nat * string * string.

(** A conversation on the chat page: each exchange ends with one
    [store_message]. *)
Fixpoint converse (self : Manager) (user_id session_id : string)
    (xs : list Exchange) : M unit :=
  match xs with
  | [] => ret tt
  | (pause, q, r) :: rest =>
      time_sleep (Z.of_nat pause) ;;;
      store_message self user_id session_id q r ;;;
      converse self user_id session_id rest
  end.




(** Neither text of the exchange is empty. *)
Definition texts_ok (x : Exchange) : Prop :=
  snd (fst x) <> "" /\ snd x <> "".


(** *** The chat page *)

(** An entry of the rebuilt history pairs the text of a stored user turn
    with the text of a stored assistant turn; its query is not empty. *)
Definition paired_from (messages : list Turn) (e : UI.ChatEntry) : Prop :=
  UI.query e <> "" /\
  (exists q, q ∈ messages /\ role q = "user" /\ content q = UI.query e) /\
  (exists a, a ∈ messages /\ role a = "assistant" /\
             content a = UI.response e).

Definition is_assistant (msg : Turn) : bool :=
  String.eqb (role msg) "assistant".

(** *** Preferences *)

(** The values a preference snapshot can hold. *)
Definition known_preferences (p : Preferences) : Prop :=
  communication_style p = "professional" /\
  response_length p = "medium" /\
  preferred_topics p ⊆ ["space_data"] /\
  common_issues p ⊆ ["warranty"; "account"].

(** *** The constructor *)

(** The manager [self] once attached to the memory [id_]. *)
Definition attach (id_ : string) (self : Manager) : Manager :=
  set_initialized true
    (set_memory_id (Some id_)
       (set_memory_client (Some (MkMemoryClient (region self))) self)).

(** The manager is attached to the first memory of the account that is
    named after [memory_name]. *)
Definition attached_to (self : Manager) (c : Cloud) : Prop :=
  exists mem, List.find names_memory (memories c) = Some mem /\
              mem_id mem = memory_id self /\ is_Some (mem_id mem).

End Props.

(** Further concrete inputs. *)
Module Examples.
Import Env Svc Mgr Init Scenario Props.

(** An account with no memory and no table, every call answered. *)
Definition fresh_cloud : Cloud :=
  {| sdk_installed := true; memories := []; list_as_dict := true;
     id_suffix := fun n => pretty n; tables := ∅; cloud_faults := [] |}.

(** The third call of the next operation fails: for [store_message], the
    read of the metadata row. *)
Definition flaky_world : World :=
  with_faults [false; false; true; false] empty_world.

(** Two exchanges, a few microseconds apart. *)
Definition small_talk : list Exchange :=
  [ (1%nat, "where is my order?", "It ships tomorrow.");
    (2%nat, "thanks", "You are welcome.") ].

End Examples.

(* ===================================================================== *)
(** ** Facts about the string primitives                                   *)
(* ===================================================================== *)

Module StrFacts.
Import Str.

Lemma sub_disallowed_allowed s :
  forall_chars is_allowed (sub_disallowed s) = true.
Proof.
  induction s as [|c s IH]; simpl; [done|].
  rewrite IH, andb_true_r.
  destruct (is_allowed c) eqn:E; [done | reflexivity].
Qed.

Lemma strip_leading_allowed s :
  forall_chars is_allowed s = true ->
  forall_chars is_allowed (strip_leading_non_alnum s) = true.
Proof.
  induction s as [|c s IH]; simpl; [done|].
  intros [Hc Hs]%andb_true_iff.
  destruct (is_alnum c); simpl; [by rewrite Hc, Hs | auto].
Qed.

(** After the second substitution the string is empty or starts with an
    alphanumeric. *)
Lemma strip_leading_head s :
  match strip_leading_non_alnum s with
  | EmptyString => True
  | String c _ => is_alnum c = true
  end.
Proof.
  induction s as [|c s IH]; simpl; [done|].
  destruct (is_alnum c) eqn:E; [exact E | exact IH].
Qed.

(** The third substitution finds nothing to remove once every character
    is in the class. *)
Lemma strip_trailing_id s :
  forall_chars is_allowed s = true -> strip_trailing_disallowed s = s.
Proof.
  induction s as [|c s IH]; simpl; [done|].
  intros [Hc Hs]%andb_true_iff. rewrite (IH Hs), Hc.
  by destruct s.
Qed.

Lemma collapse_cons c s :
  collapse_underscores (String c s) =
  if is_underscore c then
    match s with
    | String c' _ =>
        if is_underscore c' then collapse_underscores s
        else String c (collapse_underscores s)
    | EmptyString => String c EmptyString
    end
  else String c (collapse_underscores s).
Proof. reflexivity. Qed.

Lemma collapse_allowed s :
  forall_chars is_allowed s = true ->
  forall_chars is_allowed (collapse_underscores s) = true.
Proof.
  induction s as [|c s IH]; [done|].
  intros H. pose proof H as [Hc Hs]%andb_true_iff.
  rewrite collapse_cons.
  destruct (is_underscore c).
  - destruct s as [|c' s']; [by simpl; rewrite Hc|].
    destruct (is_underscore c'); [by apply IH|].
    cbn [forall_chars]. by rewrite Hc, (IH Hs).
  - cbn [forall_chars]. by rewrite Hc, (IH Hs).
Qed.

(** Collapsing keeps the first character. *)
Lemma collapse_head c s :
  exists r, collapse_underscores (String c s) = String c r.
Proof.
  revert c. induction s as [|c' s IH]; intros c; rewrite collapse_cons.
  - destruct (is_underscore c); eauto.
  - destruct (is_underscore c) eqn:Ec; [|eauto].
    destruct (is_underscore c') eqn:Ec'; [|eauto].
    destruct (IH c') as [r Hr]. exists r. rewrite Hr.
    apply Ascii.eqb_eq in Ec, Ec'. congruence.
Qed.

Lemma has_adjacent_cons p c c' s :
  has_adjacent p (String c (String c' s)) =
  p c && p c' || has_adjacent p (String c' s).
Proof. reflexivity. Qed.

Lemma collapse_no_double s :
  has_adjacent is_underscore (collapse_underscores s) = false.
Proof.
  induction s as [|c s IH]; [done|].
  rewrite collapse_cons.
  destruct s as [|c' s'].
  - by destruct (is_underscore c).
  - destruct (collapse_head c' s') as [r Hr].
    destruct (is_underscore c) eqn:Ec.
    + destruct (is_underscore c') eqn:Ec'; [exact IH|].
      rewrite Hr in IH |- *. rewrite has_adjacent_cons.
      by rewrite Ec, Ec', IH.
    + rewrite Hr in IH |- *. rewrite has_adjacent_cons.
      by rewrite Ec, IH.
Qed.

Lemma str_take_length n s : (String.length (str_take n s) <= n)%nat.
Proof.
  revert s. induction n as [|n IH]; intros [|c s]; simpl; try lia.
  specialize (IH s). lia.
Qed.

Lemma str_take_short n s :
  (String.length s <= n)%nat -> str_take n s = s.
Proof.
  revert s. induction n as [|n IH]; intros [|c s]; simpl; try done; try lia.
  intros H. f_equal. apply IH. lia.
Qed.





End StrFacts.

(* ===================================================================== *)
(** ** Actor identifiers                                                   *)
(* ===================================================================== *)

Section Sanitize.
Import Str StrFacts Mgr.

Example sanitize_email :
  _sanitize_actor_id "john.doe@example.com" = "john_doe_example_com".
Proof. reflexivity. Qed.

(** When the substitutions leave nothing, the placeholder is returned. *)
Lemma sanitize_fallback user_id :
  collapse_underscores
    (strip_trailing_disallowed
       (strip_leading_non_alnum (sub_disallowed user_id))) = "" ->
  _sanitize_actor_id user_id = "user".
Proof. unfold _sanitize_actor_id. by intros ->. Qed.

(** C1 (as the code has it): for every [user_id] the actor identifier is
    non-empty, consists of alphanumerics, hyphens and underscores only,
    starts with an alphanumeric (it matches [[A-Za-z0-9][A-Za-z0-9_-]*],
    so it may be a single character) and has no two consecutive
    underscores. *)
Theorem sanitize_actor_id_guarantee user_id :
  Spec.actor_id_guarantee (_sanitize_actor_id user_id).
Proof.
  unfold Spec.actor_id_guarantee, _sanitize_actor_id.
  pose proof (sub_disallowed_allowed user_id) as H1.
  apply strip_leading_allowed in H1.
  pose proof (strip_leading_head (sub_disallowed user_id)) as H2.
  rewrite (strip_trailing_id _ H1).
  pose proof (collapse_allowed _ H1) as H3.
  pose proof (collapse_no_double
                (strip_leading_non_alnum (sub_disallowed user_id))) as H4.
  destruct (strip_leading_non_alnum (sub_disallowed user_id)) as [|c r].
  - by vm_compute.
  - destruct (collapse_head c r) as [r' Hr]. rewrite Hr in *.
    cbn [forall_chars] in H3. apply andb_true_iff in H3 as [_ H3].
    repeat split; [done| |by cbn; rewrite H2, H3|done].
    cbn [forall_chars]. rewrite H3, andb_true_r.
    unfold is_allowed. by rewrite H2.
Qed.

(** C1 (as stated) fails: a one-character identifier is returned
    unchanged and is too short for
    [[A-Za-z0-9][A-Za-z0-9_-]*[A-Za-z0-9_-]]; consecutive hyphens are
    kept. *)
Lemma sanitize_actor_id_contract_fails :
  ~ Spec.actor_id_contract (_sanitize_actor_id "a") /\
  ~ Spec.actor_id_contract (_sanitize_actor_id "a--b").
Proof.
  split; intros (_ & _ & Hpat & Hsep); vm_compute in Hpat, Hsep; congruence.
Qed.

End Sanitize.

(* ===================================================================== *)
(** ** Facts about the monad and the services                              *)
(* ===================================================================== *)

Module EnvFacts.
Import Env Svc Logic.

Lemma bind_ok {A B} (m : M A) (k : A -> M B) w a w' :
  m w = (Ok a, w') -> bind m k w = k a w'.
Proof. unfold bind. by intros ->. Qed.

Lemma bind_raise {A B} (m : M A) (k : A -> M B) w e w' :
  m w = (Raise e, w') -> bind m k w = (Raise e, w').
Proof. unfold bind. by intros ->. Qed.

Lemma try_ok {A} (m : M A) h w a w' :
  m w = (Ok a, w') -> try_except m h w = (Ok a, w').
Proof. unfold try_except. by intros ->. Qed.

Lemma try_raise {A} (m : M A) h w e w' :
  m w = (Raise e, w') -> try_except m h w = h e w'.
Proof. unfold try_except. by intros ->. Qed.

(** *** Totality *)

Lemma total_ret {A} (a : A) : total (ret a).
Proof. intros w. by exists a, w. Qed.

Lemma total_bind {A B} (m : M A) (k : A -> M B) :
  total m -> (forall a, total (k a)) -> total (bind m k).
Proof.
  intros Hm Hk w. destruct (Hm w) as (a & w' & E).
  rewrite (bind_ok _ _ _ _ _ E). apply Hk.
Qed.

Lemma total_try {A} (m : M A) h :
  (forall e, total (h e)) -> total (try_except m h).
Proof.
  intros Hh w. unfold try_except.
  destruct (m w) as [[a|e] w']; [by exists a, w' | apply Hh].
Qed.

Lemma total_datetime_now : total datetime_now.
Proof. intros w. by eexists _, _. Qed.

Lemma total_uuid4 : total uuid4.
Proof. intros w. by eexists _, _. Qed.

Lemma total_set_order : total set_order.
Proof. intros w. by eexists _, _. Qed.

(** *** Frames *)

Lemma frame_refl w : frame w w.
Proof. by repeat split. Qed.

Lemma frame_trans w1 w2 w3 : frame w1 w2 -> frame w2 w3 -> frame w1 w3.
Proof.
  unfold frame. intros (?&?&?&?&?&?&?&?) (?&?&?&?&?&?&?&?).
  repeat split; congruence.
Qed.

Lemma frame_with_faults w f : frame w (with_faults f w).
Proof. by repeat split. Qed.

Lemma read_only_ret {A} (a : A) : read_only (ret a).
Proof. intros w. apply frame_refl. Qed.

Lemma read_only_raise {A} e : read_only (@raise A e).
Proof. intros w. apply frame_refl. Qed.

Lemma read_only_bind {A B} (m : M A) (k : A -> M B) :
  read_only m -> (forall a, read_only (k a)) -> read_only (bind m k).
Proof.
  intros Hm Hk w. specialize (Hm w). unfold bind.
  destruct (m w) as [[a|e] w']; simpl in *; [|done].
  eapply frame_trans; [exact Hm | apply Hk].
Qed.

Lemma read_only_try {A} (m : M A) h :
  read_only m -> (forall e, read_only (h e)) -> read_only (try_except m h).
Proof.
  intros Hm Hh w. specialize (Hm w). unfold try_except.
  destruct (m w) as [[a|e] w']; simpl in *; [done|].
  eapply frame_trans; [exact Hm | apply Hh].
Qed.

Lemma read_only_set_order : read_only set_order.
Proof. intros w. apply frame_refl. Qed.

Lemma read_only_service_call : read_only service_call.
Proof.
  intros w. unfold service_call.
  destruct (faults w) as [|[] fs]; simpl;
    auto using frame_refl, frame_with_faults.
Qed.

Lemma read_only_require_memory o : read_only (require_memory o).
Proof. destruct o; [apply read_only_ret | apply read_only_raise]. Qed.

Lemma read_only_list_events o a s n : read_only (list_events o a s n).
Proof.
  unfold list_events.
  apply read_only_bind; [apply read_only_service_call | intros _].
  apply read_only_bind; [apply read_only_require_memory | intros mid].
  intros w. apply frame_refl.
Qed.

Lemma read_only_query u limit : read_only (Svc.query u limit).
Proof.
  unfold Svc.query.
  apply read_only_bind; [apply read_only_service_call | intros _].
  destruct (limit <? 1); [apply read_only_raise |].
  intros w. apply frame_refl.
Qed.

(** *** External calls when nothing fails *)

Lemma service_call_ok w : faults w = [] -> service_call w = (Ok tt, w).
Proof. unfold service_call. by intros ->. Qed.

(** Case analysis on the failure schedule, one external call at a time. *)
Ltac case_faults :=
  repeat match goal with
    | H : faults ?w = _ |- context [faults ?w] => rewrite H; simpl
    | |- context [match faults ?w with _ => _ end] =>
        destruct (faults w) as [|[] ?] eqn:?; simpl
    | |- context [match ?l with [] => _ | _ :: _ => _ end] =>
        is_var l; destruct l as [|[] ?]; simpl
    end.

End EnvFacts.

(* ===================================================================== *)
(** ** No method raises                                                    *)
(* ===================================================================== *)

Module MgrFacts.
Import Env Svc Mgr Logic EnvFacts.

Lemma total_store_message self u s m r : total (store_message self u s m r).
Proof.
  unfold store_message. destruct (negb (initialized self)).
  - apply total_ret.
  - apply total_try. intros _. apply total_ret.
Qed.

Lemma total_get_session_messages self u s :
  total (get_session_messages self u s).
Proof.
  unfold get_session_messages. destruct (negb (initialized self)).
  - apply total_ret.
  - apply total_try. intros _. apply total_ret.
Qed.

Lemma total_get_conversation_context self u s q n :
  total (get_conversation_context self u s q n).
Proof.
  unfold get_conversation_context.
  apply total_bind; [apply total_get_session_messages|].
  intros msgs. apply total_ret.
Qed.

Lemma total_get_user_sessions self u limit :
  total (get_user_sessions self u limit).
Proof.
  unfold get_user_sessions. destruct (session_table self).
  - apply total_try. intros _. apply total_ret.
  - apply total_ret.
Qed.

Lemma total_gather_messages self u sessions acc :
  total (gather_messages self u sessions acc).
Proof.
  revert acc. induction sessions as [|session rest IH]; intros acc; simpl.
  - apply total_ret.
  - apply total_bind; [apply total_get_session_messages | intros; apply IH].
Qed.

Lemma total_get_user_preferences self u : total (get_user_preferences self u).
Proof.
  unfold get_user_preferences.
  apply total_bind; [apply total_get_user_sessions | intros sessions].
  apply total_bind; [apply total_gather_messages | intros all].
  apply total_bind; [apply total_set_order | intros rank].
  apply total_ret.
Qed.

Lemma total_generate_follow_up_questions self u q :
  total (generate_follow_up_questions self u q).
Proof.
  unfold generate_follow_up_questions.
  apply total_bind; [apply total_get_user_preferences | intros p].
  apply total_ret.
Qed.

Lemma total_create_session self u : total (create_session self u).
Proof.
  unfold create_session.
  apply total_bind; [apply total_uuid4 | intros x].
  apply total_bind; [|intros; apply total_ret].
  destruct (session_table self).
  - apply total_try. intros _. apply total_ret.
  - apply total_ret.
Qed.

Lemma total_delete_session self u s : total (delete_session self u s).
Proof.
  unfold delete_session. apply total_try. intros _. apply total_ret.
Qed.

(** *** Reads write no state *)

Lemma read_only_get_session_messages self u s :
  read_only (get_session_messages self u s).
Proof.
  unfold get_session_messages. destruct (negb (initialized self)).
  { apply read_only_ret. }
  apply read_only_try; [|intros; apply read_only_ret].
  apply read_only_bind.
  - unfold with_client. destruct (memory_client self).
    + apply read_only_list_events.
    + apply read_only_raise.
  - intros events. unfold sorted_by_timestamp.
    destruct (collect_messages events) as [|m rest].
    + apply read_only_ret.
    + destruct (forallb _ _); [apply read_only_ret | apply read_only_raise].
Qed.

Lemma read_only_get_conversation_context self u s q n :
  read_only (get_conversation_context self u s q n).
Proof.
  unfold get_conversation_context.
  apply read_only_bind; [apply read_only_get_session_messages|].
  intros. apply read_only_ret.
Qed.

Lemma read_only_get_user_sessions self u limit :
  read_only (get_user_sessions self u limit).
Proof.
  unfold get_user_sessions. destruct (session_table self).
  - apply read_only_try; [|intros; apply read_only_ret].
    apply read_only_bind; [apply read_only_service_call | intros _].
    apply read_only_bind; [apply read_only_query | intros].
    apply read_only_ret.
  - apply read_only_ret.
Qed.

Lemma read_only_gather_messages self u sessions acc :
  read_only (gather_messages self u sessions acc).
Proof.
  revert acc. induction sessions as [|session rest IH]; intros acc; simpl.
  - apply read_only_ret.
  - apply read_only_bind; [apply read_only_get_session_messages|].
    intros. apply IH.
Qed.

Lemma read_only_get_user_preferences self u :
  read_only (get_user_preferences self u).
Proof.
  unfold get_user_preferences.
  apply read_only_bind; [apply read_only_get_user_sessions | intros].
  apply read_only_bind; [apply read_only_gather_messages | intros].
  apply read_only_bind; [apply read_only_set_order | intros].
  apply read_only_ret.
Qed.

End MgrFacts.

(* ===================================================================== *)
(** ** The constructor                                                     *)
(* ===================================================================== *)

Section Constructor.
Import Str Env Mgr Init Props Examples.

Lemma prefix_app s t : String.prefix s (s ++ t) = true.
Proof.
  induction s as [|a s IH]; simpl; [by destruct t|].
  by destruct (ascii_dec a a).
Qed.

Lemma contains_app s t : contains s (s ++ t) = true.
Proof.
  destruct s; simpl.
  - by destruct t.
  - destruct (ascii_dec a a); [|done]. by rewrite prefix_app.
Qed.

Lemma find_app_fresh {A} (p : A -> bool) l x :
  List.find p l = None -> p x = true -> List.find p (l ++ [x]) = Some x.
Proof.
  induction l as [|y l IH]; simpl; [by intros _ ->|].
  destruct (p y); [done|auto].
Qed.

Lemma find_names_memory l mem :
  List.find names_memory l = Some mem -> is_Some (mem_id mem).
Proof.
  intros [_ H]%find_some. unfold names_memory in H.
  destruct (mem_id mem); [by eexists|done].
Qed.

Lemma memories_of_list_memories c r c' :
  list_memories c = (Some r, c') ->
  memories_of r = memories c /\ memories c' = memories c /\
  tables c' = tables c /\ sdk_installed c' = sdk_installed c /\
  list_as_dict c' = list_as_dict c /\ id_suffix c' = id_suffix c.
Proof.
  unfold list_memories, cloud_call.
  destruct (cloud_faults c) as [|[] fs]; simpl; try done;
    intros [= <- <-]; simpl; by destruct (list_as_dict c).
Qed.

(** The outcome of [_initialize_agentcore] on a manager that is not yet
    attached: either it stays detached and no memory is created, or it is
    attached to the first memory of the account named after
    [memory_name], created when there was none. *)
Lemma initialize_agentcore_cases self c :
  initialized self = false -> memory_id self = None ->
  let r := _initialize_agentcore self c in
  region r.1 = region self /\ session_table r.1 = session_table self /\
  tables r.2 = tables c /\ sdk_installed r.2 = sdk_installed c /\
  list_as_dict r.2 = list_as_dict c /\ id_suffix r.2 = id_suffix c /\
  ((initialized r.1 = false /\ memory_id r.1 = None /\
    memories r.2 = memories c) \/
   (initialized r.1 = true /\
    memory_client r.1 = Some (MkMemoryClient (region self)) /\
    attached_to r.1 r.2 /\
    (memories r.2 = memories c \/
     List.find names_memory (memories c) = None /\
     exists mem, memories r.2 = (memories c ++ [mem])%list))).
Proof.
  intros Hi Hm. unfold _initialize_agentcore.
  destruct (sdk_installed c) eqn:Hsdk; simpl.
  2:{ split_and!; try done. by left. }
  destruct (cloud_call c) as [failed c1] eqn:E1.
  assert (H1 : memories c1 = memories c /\ tables c1 = tables c /\
               sdk_installed c1 = sdk_installed c /\
               list_as_dict c1 = list_as_dict c /\
               id_suffix c1 = id_suffix c).
  { revert E1. unfold cloud_call.
    destruct (cloud_faults c); by intros [= <- <-]. }
  destruct H1 as (Hm1 & Ht1 & Hs1 & Hd1 & Hx1).
  destruct failed; simpl.
  { split_and!; try done; try congruence. left. split_and!; congruence. }
  destruct (list_memories c1) as [[response|] c2] eqn:E2; simpl.
  2:{ revert E2. unfold list_memories, cloud_call.
      destruct (cloud_faults c1) as [|[] fs]; simpl; try done.
      intros [= <-]. simpl. split_and!; try done; try congruence.
      left. split_and!; congruence. }
  apply memories_of_list_memories in E2
    as (Hr & Hm2 & Ht2 & Hs2 & Hd2 & Hx2).
  rewrite Hr.
  destruct (List.find names_memory (memories c2)) as [mem|] eqn:Ef;
    rewrite Hm2 in Ef; rewrite Ef.
  - destruct (find_names_memory _ _ Ef) as [id_ Hid]. rewrite Hid. simpl.
    split_and!; try congruence. right. split_and!; try done.
    + exists mem. rewrite Hm2. by rewrite Hid.
    + left. congruence.
  - unfold create_memory_and_wait.
    destruct (cloud_call c2) as [failed c3] eqn:E3.
    assert (H3 : memories c3 = memories c2 /\ tables c3 = tables c2 /\
                 sdk_installed c3 = sdk_installed c2 /\
                 list_as_dict c3 = list_as_dict c2 /\
                 id_suffix c3 = id_suffix c2).
    { revert E3. unfold cloud_call.
      destruct (cloud_faults c2); by intros [= <- <-]. }
    destruct H3 as (Hm3 & Ht3 & Hs3 & Hd3 & Hx3).
    destruct failed; simpl.
    { split_and!; try congruence. left. split_and!; congruence. }
    split_and!; try congruence. right. split_and!; try done.
    + exists {| mem_id := Some (memory_name ++ "-" ++
                                  id_suffix c3 (length (memories c3))) |}.
      split_and!; [|done|by eexists].
      simpl. rewrite Hm3. apply find_app_fresh; [congruence|].
      apply contains_app.
    + right. split; [congruence|]. eexists. by rewrite Hm3, Hm2, Hm1.
Qed.

(** [_ensure_session_table_exists] always leaves a handle on the table
    and creates the table at most when it is missing. *)
Lemma ensure_session_table_cases self c :
  let r := _ensure_session_table_exists self c in
  session_table r.1 = Some (MkTable session_table_name) /\
  region r.1 = region self /\ memory_client r.1 = memory_client self /\
  memory_id r.1 = memory_id self /\ initialized r.1 = initialized self /\
  memories r.2 = memories c /\ sdk_installed r.2 = sdk_installed c /\
  list_as_dict r.2 = list_as_dict c /\ id_suffix r.2 = id_suffix c /\
  (tables r.2 = tables c \/
   (session_table_name ∉ tables c) /\
   tables r.2 = {[session_table_name]} ∪ tables c).
Proof.
  unfold _ensure_session_table_exists, _create_session_table, cloud_call.
  destruct (cloud_faults c) as [|[] [|[] [|[] fs]]] eqn:E; simpl;
    try (split_and!; try done; by left);
    repeat (case_bool_decide; simpl; rewrite ?E; simpl);
    split_and!; try done; try (by left); by right.
Qed.

(** X2: whatever the account holds and whichever calls fail, the manager
    the constructor returns has the region it was given and a handle on
    the table [customer-support-sessions]; it is initialized exactly when
    it has a memory identifier, in which case it has a client and the
    identifier is that of the first memory of the account named after
    [customerSupportMemory]; and [is_available] is then the same as
    [initialized]. *)
Theorem constructor_invariant region_ c :
  let r := __init__ region_ c in
  region r.1 = region_ /\
  session_table r.1 = Some (MkTable session_table_name) /\
  is_available r.1 = initialized r.1 /\
  (initialized r.1 = true <-> is_Some (memory_id r.1)) /\
  (initialized r.1 = true ->
   memory_client r.1 = Some (MkMemoryClient region_) /\
   attached_to r.1 r.2).
Proof.
  unfold __init__.
  set (self0 := {| Mgr.region := region_; memory_client := None;
                   memory_id := None; initialized := false;
                   session_table := None |}).
  pose proof (initialize_agentcore_cases self0 c eq_refl eq_refl) as H.
  destruct (_initialize_agentcore self0 c) as [self1 c1]. simpl in H.
  destruct H as (Hr & _ & _ & _ & _ & _ & Hcases).
  pose proof (ensure_session_table_cases self1 c1) as H.
  destruct (_ensure_session_table_exists self1 c1) as [self2 c2].
  simpl in H |- *.
  destruct H as (Ht & Hr2 & Hc2 & Hm2 & Hi2 & Hmem & _).
  assert (Hcl : initialized self2 = true ->
                memory_client self2 = Some (MkMemoryClient region_)).
  { rewrite Hi2, Hc2.
    by destruct Hcases as [(-> & _) | (_ & -> & _)]. }
  split_and!; [congruence|done| | |].
  - unfold is_available. destruct (initialized self2); [|done].
    by rewrite Hcl.
  - rewrite Hi2, Hm2.
    destruct Hcases as [(-> & -> & _) | (-> & _ & (mem & _ & <- & Hs) & _)].
    + split; [done|]. by intros [? ?].
    + done.
  - intros Hi. split; [by apply Hcl|].
    rewrite Hi2 in Hi.
    destruct Hcases as [(Hn & _) | (_ & _ & (mem & Hf & Hid & Hs) & _)];
      [congruence|].
    exists mem. by rewrite Hmem, Hm2.
Qed.

(** X3: the constructor creates at most one memory, and only when the
    account has none named after [customerSupportMemory]; it creates at
    most the table [customer-support-sessions], and only when that table
    is missing. *)
Theorem constructor_creates_once region_ c :
  let c' := (__init__ region_ c).2 in
  (memories c' = memories c \/
   List.find names_memory (memories c) = None /\
   exists mem, memories c' = (memories c ++ [mem])%list /\
               names_memory mem = true) /\
  (tables c' = tables c \/
   (session_table_name ∉ tables c) /\
   tables c' = {[session_table_name]} ∪ tables c).
Proof.
  unfold __init__.
  set (self0 := {| Mgr.region := region_; memory_client := None;
                   memory_id := None; initialized := false;
                   session_table := None |}).
  pose proof (initialize_agentcore_cases self0 c eq_refl eq_refl) as H.
  destruct (_initialize_agentcore self0 c) as [self1 c1]. simpl in H.
  destruct H as (_ & _ & Ht1 & _ & _ & _ & Hcases).
  pose proof (ensure_session_table_cases self1 c1) as H.
  destruct (_ensure_session_table_exists self1 c1) as [self2 c2].
  simpl in H |- *.
  destruct H as (_ & _ & _ & _ & _ & Hmem & _ & _ & _ & Htab).
  rewrite Hmem, <- Ht1. split; [|done].
  destruct Hcases as [(_ & _ & ->) | (_ & _ & Ha & [-> | [Hnone [mem Hm]]])];
    [by left | by left |].
  right. split; [done|]. exists mem. split; [done|].
  destruct Ha as (mem' & Hf & _). rewrite Hm in Hf.
  destruct (names_memory mem) eqn:E; [done|].
  apply find_some in Hf as [Hin Hn].
  apply in_app_or in Hin as [Hin | [-> | []]]; [|congruence].
  by apply (find_none _ _ Hnone) in Hin; congruence.
Qed.

Lemma initialize_reuses self c mem :
  sdk_installed c = true -> cloud_faults c = [] ->
  List.find names_memory (memories c) = Some mem ->
  exists id_, mem_id mem = Some id_ /\
              _initialize_agentcore self c = (attach id_ self, c).
Proof.
  intros Hsdk Hf Hfind. destruct (find_names_memory _ _ Hfind) as [id_ Hid].
  exists id_. split; [done|].
  unfold _initialize_agentcore, list_memories, cloud_call.
  rewrite Hsdk, Hf. simpl. rewrite Hf.
  assert (memories_of (if list_as_dict c then AsDict (Some (memories c))
                       else AsList (memories c)) = memories c) as ->
    by (by destruct (list_as_dict c)).
  by rewrite Hfind, Hid.
Qed.

Lemma initialize_creates self c :
  sdk_installed c = true -> cloud_faults c = [] ->
  List.find names_memory (memories c) = None ->
  let id_ := memory_name ++ "-" ++ id_suffix c (length (memories c)) in
  _initialize_agentcore self c
  = (attach id_ self,
     with_memories (memories c ++ [ {| mem_id := Some id_ |} ]) c).
Proof.
  intros Hsdk Hf Hfind.
  unfold _initialize_agentcore, list_memories, create_memory_and_wait,
    cloud_call.
  rewrite Hsdk, Hf. simpl. rewrite Hf.
  assert (memories_of (if list_as_dict c then AsDict (Some (memories c))
                       else AsList (memories c)) = memories c) as ->
    by (by destruct (list_as_dict c)).
  by rewrite Hfind, Hf.
Qed.

Lemma ensure_present self c :
  cloud_faults c = [] -> session_table_name ∈ tables c ->
  _ensure_session_table_exists self c
  = (set_session_table (Some (MkTable session_table_name)) self, c).
Proof.
  intros Hf Hin. unfold _ensure_session_table_exists, cloud_call.
  rewrite Hf. simpl. by rewrite bool_decide_eq_true_2.
Qed.

Lemma ensure_absent self c :
  cloud_faults c = [] -> session_table_name ∉ tables c ->
  _ensure_session_table_exists self c
  = (set_session_table (Some (MkTable session_table_name)) self,
     with_tables ({[session_table_name]} ∪ tables c) c).
Proof.
  intros Hf Hin.
  unfold _ensure_session_table_exists, _create_session_table, cloud_call.
  do 3 (rewrite ?Hf, ?bool_decide_eq_false_2 by done; simpl).
  done.
Qed.

(** With every call answered the table exists afterwards. *)
Lemma ensure_healthy self c :
  cloud_faults c = [] ->
  exists c',
    _ensure_session_table_exists self c
    = (set_session_table (Some (MkTable session_table_name)) self, c') /\
    session_table_name ∈ tables c' /\ memories c' = memories c /\
    sdk_installed c' = sdk_installed c /\ cloud_faults c' = [].
Proof.
  intros Hf. destruct (decide (session_table_name ∈ tables c)) as [Hin|Hin].
  - exists c. by rewrite ensure_present.
  - eexists. rewrite ensure_absent by done.
    split_and!; [done|set_solver|done|done|done].
Qed.

(** With the SDK installed and every call answered the manager gets
    attached to the memory that is then the first of its name. *)
Lemma initialize_healthy self c :
  sdk_installed c = true -> cloud_faults c = [] ->
  exists mem id_ c',
    _initialize_agentcore self c = (attach id_ self, c') /\
    List.find names_memory (memories c') = Some mem /\
    mem_id mem = Some id_ /\
    sdk_installed c' = true /\ cloud_faults c' = [].
Proof.
  intros Hsdk Hf.
  destruct (List.find names_memory (memories c)) as [mem|] eqn:Hfind.
  - destruct (initialize_reuses self c mem Hsdk Hf Hfind) as (id_ & Hid & ->).
    by exists mem, id_, c.
  - rewrite initialize_creates by done.
    eexists {| mem_id := Some _ |}, _, _.
    split_and!; [done| |done|done|done].
    simpl. apply find_app_fresh; [done|]. apply contains_app.
Qed.

(** X4: with the SDK installed and every call answered, the constructed
    manager is available and the table exists afterwards; constructing a
    second manager then gives the same manager and changes nothing in the
    account. *)
Theorem constructor_idempotent region_ c :
  sdk_installed c = true -> cloud_faults c = [] ->
  let r := __init__ region_ c in
  is_available r.1 = true /\
  session_table_name ∈ tables r.2 /\
  __init__ region_ r.2 = r.
Proof.
  intros Hsdk Hf. unfold __init__.
  set (self0 := {| Mgr.region := region_; memory_client := None;
                   memory_id := None; initialized := false;
                   session_table := None |}).
  destruct (initialize_healthy self0 c Hsdk Hf)
    as (mem & id_ & c1 & -> & Hfind & Hid & Hsdk1 & Hf1).
  destruct (ensure_healthy (attach id_ self0) c1 Hf1)
    as (c2 & -> & Hin & Hmem & Hsdk2 & Hf2).
  simpl. split_and!; [done|done|].
  rewrite <- Hmem in Hfind. rewrite Hsdk1 in Hsdk2.
  destruct (initialize_reuses self0 c2 mem Hsdk2 Hf2 Hfind)
    as (id' & Hid' & ->).
  rewrite ensure_present by done. congruence.
Qed.

Lemma constructor_idempotent_witness :
  sdk_installed fresh_cloud = true /\ cloud_faults fresh_cloud = [] /\
  is_available (__init__ "us-east-1" fresh_cloud).1 = true /\
  __init__ "us-east-1" (__init__ "us-east-1" fresh_cloud).2
  = __init__ "us-east-1" fresh_cloud.
Proof.
  split; [reflexivity|]. split; [reflexivity|].
  destruct (constructor_idempotent "us-east-1" fresh_cloud eq_refl eq_refl)
    as (H1 & _ & H2).
  split; [exact H1 | exact H2].
Defined.

End Constructor.

(* ===================================================================== *)
(** ** Error handling and the degraded state                               *)
(* ===================================================================== *)

Section Degraded.
Import Env Svc Mgr Logic EnvFacts MgrFacts Scenario Spec Init.

Lemma degraded_store_message self u s m r w :
  initialized self = false -> store_message self u s m r w = (Ok tt, w).
Proof. unfold store_message. by intros ->. Qed.

Lemma degraded_get_session_messages self u s w :
  initialized self = false -> get_session_messages self u s w = (Ok [], w).
Proof. unfold get_session_messages. by intros ->. Qed.

Lemma degraded_get_conversation_context self u s q n w :
  initialized self = false ->
  get_conversation_context self u s q n w = (Ok "", w).
Proof.
  intros H. unfold get_conversation_context.
  by rewrite (bind_ok _ _ _ _ _ (degraded_get_session_messages _ u s w H)).
Qed.

(** Without a memory client the deletion fails before it reaches either
    store. *)
Lemma degraded_delete_session self u s w :
  memory_client self = None -> delete_session self u s w = (Ok false, w).
Proof.
  intros H. unfold delete_session, try_except, bind, with_client.
  by rewrite H.
Qed.

(** With a client but without a memory identifier the listing is refused
    and the deletion fails before it changes either store. *)
Lemma detached_delete_session self u s w :
  memory_id self = None ->
  exists w', delete_session self u s w = (Ok false, w') /\ frame w w'.
Proof.
  intros H. unfold delete_session, try_except, bind, with_client.
  destruct (memory_client self);
    [|eexists; split; [reflexivity | apply frame_refl]].
  unfold list_events, bind, service_call, require_memory, raise. rewrite H.
  destruct (faults w) as [|[] fs]; simpl; eexists;
    (split; [reflexivity|]); auto using frame_refl, frame_with_faults.
Qed.

(** A manager that is not initialized gathers no message. *)
Lemma gather_degraded self u sessions acc w :
  initialized self = false ->
  gather_messages self u sessions acc w = (Ok acc, w).
Proof.
  intros Hd. revert acc. induction sessions as [|x xs IH]; intros acc;
    simpl; [done|].
  rewrite (bind_ok _ _ _ _ _
             (degraded_get_session_messages self u (Env.session_id x) w Hd)).
  rewrite app_nil_r. apply IH.
Qed.

(** It infers nothing: the preferences are the defaults and the follow-up
    questions those of the current query; nothing is written. *)
Lemma degraded_get_user_preferences self u w :
  initialized self = false ->
  exists w',
    get_user_preferences self u w = (Ok default_preferences, w') /\
    frame w w'.
Proof.
  intros Hd.
  destruct (total_get_user_sessions self u 5 w) as (sessions & w' & Es).
  exists w'. split.
  - unfold get_user_preferences.
    rewrite (bind_ok _ _ _ _ _ Es).
    by rewrite (bind_ok _ _ _ _ _ (gather_degraded self u sessions [] w' Hd)).
  - pose proof (read_only_get_user_sessions self u 5 w) as F.
    by rewrite Es in F.
Qed.

Lemma degraded_generate_follow_up_questions self u q w :
  initialized self = false ->
  exists w',
    generate_follow_up_questions self u q w
    = (Ok (query_suggestions q), w') /\
    frame w w'.
Proof.
  intros Hd.
  destruct (degraded_get_user_preferences self u w Hd) as (w' & Ep & F).
  exists w'. split; [|done].
  unfold generate_follow_up_questions. rewrite (bind_ok _ _ _ _ _ Ep).
  unfold ret, query_suggestions. simpl.
  destruct (Str.contains "warranty" _); [done|].
  destruct (_ || _); [done|].
  by destruct (Str.contains "mars" _).
Qed.

(** The constructor leaves a manager that is not initialized without a
    memory identifier, and with its handle on the table. *)
Lemma constructed_degraded region_ c :
  initialized (__init__ region_ c).1 = false ->
  memory_id (__init__ region_ c).1 = None /\
  is_Some (session_table (__init__ region_ c).1).
Proof.
  unfold __init__.
  set (self0 := {| Mgr.region := region_; memory_client := None;
                   memory_id := None; initialized := false;
                   session_table := None |}).
  pose proof (initialize_agentcore_cases self0 c eq_refl eq_refl) as H.
  destruct (_initialize_agentcore self0 c) as [self1 c1]. simpl in H.
  destruct H as (_ & _ & _ & _ & _ & _ & Hcases).
  pose proof (ensure_session_table_cases self1 c1) as H.
  destruct (_ensure_session_table_exists self1 c1) as [self2 c2].
  simpl in H |- *.
  destruct H as (Ht & _ & _ & Hm2 & Hi2 & _).
  rewrite Hi2, Hm2, Ht. intros Hi. split; [|by eexists].
  destruct Hcases as [(_ & Hn & _) | (Hy & _)]; [done | congruence].
Qed.

(** When the next service call fails, each method returns its fallback
    value. *)
Lemma failing_call_fallbacks self u s q n limit w fs :
  let w0 := with_faults (true :: fs) w in
  (exists w', get_session_messages self u s w0 = (Ok [], w')) /\
  (exists w', get_conversation_context self u s q n w0 = (Ok "", w')) /\
  (exists w', get_user_sessions self u limit w0 = (Ok [], w')) /\
  (exists w', get_user_preferences self u w0 = (Ok default_preferences, w')) /\
  (exists w', delete_session self u s w0 = (Ok false, w')).
Proof.
  intros w0.
  assert (exists w', get_session_messages self u s w0 = (Ok [], w')) as Hg.
  { unfold get_session_messages. destruct (negb (initialized self)); [by eexists|].
    unfold try_except, bind, with_client.
    destruct (memory_client self); [|by eexists].
    unfold list_events, bind, service_call. simpl. by eexists. }
  assert (exists w', get_user_sessions self u limit w0 = (Ok [], w')) as Hs.
  { unfold get_user_sessions. destruct (session_table self); [|by eexists].
    unfold try_except, bind, table_load, service_call. simpl. by eexists. }
  split_and!; try done.
  - destruct Hg as [w' Hg]. exists w'.
    unfold get_conversation_context. by rewrite (bind_ok _ _ _ _ _ Hg).
  - unfold get_user_preferences, get_user_sessions.
    destruct (session_table self).
    + unfold try_except, bind, table_load, service_call. simpl. by eexists.
    + simpl. by eexists.
  - unfold delete_session, try_except, bind, with_client.
    destruct (memory_client self); [|by eexists].
    unfold list_events, bind, service_call. simpl. by eexists.
Qed.

(** C8 (as the code has it): no public method lets an exception reach its
    caller, each returns a value from every state of the stores and for
    every pattern of service failures; when the next service call fails
    the value is the fallback (the empty list, the empty text, the default
    preferences, false).  When the manager is not initialized,
    [store_message] is skipped, [get_session_messages] returns the empty
    list, [get_conversation_context] the empty text,
    [get_user_preferences] the default preferences and
    [generate_follow_up_questions] the suggestions for the current query
    alone, and [delete_session] returns false when the manager has no
    client or no memory identifier, which is how the constructor leaves
    every manager that is not initialized; none of these calls changes the
    event log or the metadata table.  (The two methods left,
    [create_session] and [get_user_sessions], test the table handle and
    not the flag.) *)
Theorem public_operations_never_raise self :
  (forall u s m r, total (store_message self u s m r)) /\
  (forall u s, total (get_session_messages self u s)) /\
  (forall u s q n, total (get_conversation_context self u s q n)) /\
  (forall u, total (get_user_preferences self u)) /\
  (forall u q, total (generate_follow_up_questions self u q)) /\
  (forall u limit, total (get_user_sessions self u limit)) /\
  (forall u, total (create_session self u)) /\
  (forall u s, total (delete_session self u s)) /\
  (forall u s q n limit w fs,
     let w0 := with_faults (true :: fs) w in
     (exists w', get_session_messages self u s w0 = (Ok [], w')) /\
     (exists w', get_conversation_context self u s q n w0 = (Ok "", w')) /\
     (exists w', get_user_sessions self u limit w0 = (Ok [], w')) /\
     (exists w', get_user_preferences self u w0
                 = (Ok default_preferences, w')) /\
     (exists w', delete_session self u s w0 = (Ok false, w'))) /\
  (initialized self = false ->
   forall u s w,
     (forall m r, store_message self u s m r w = (Ok tt, w)) /\
     get_session_messages self u s w = (Ok [], w) /\
     (forall q n, get_conversation_context self u s q n w = (Ok "", w)) /\
     (exists w',
        get_user_preferences self u w = (Ok default_preferences, w') /\
        frame w w') /\
     (forall q, exists w',
        generate_follow_up_questions self u q w
        = (Ok (query_suggestions q), w') /\
        frame w w') /\
     (memory_client self = None ->
      delete_session self u s w = (Ok false, w)) /\
     (memory_id self = None ->
      exists w', delete_session self u s w = (Ok false, w') /\
                 frame w w')) /\
  (forall region_ c,
     initialized (__init__ region_ c).1 = false ->
     memory_id (__init__ region_ c).1 = None /\
     is_Some (session_table (__init__ region_ c).1)).
Proof.
  split_and!;
    auto using total_store_message, total_get_session_messages,
      total_get_conversation_context, total_get_user_preferences,
      total_generate_follow_up_questions, total_get_user_sessions,
      total_create_session, total_delete_session.
  - intros. by apply failing_call_fallbacks.
  - intros Hd u s w. split_and!;
      auto using degraded_store_message, degraded_get_session_messages,
        degraded_get_conversation_context, degraded_delete_session,
        degraded_get_user_preferences, degraded_generate_follow_up_questions,
        detached_delete_session.
  - apply constructed_degraded.
Qed.

Lemma public_operations_never_raise_witness :
  store_message degraded_manager "alice" "session-1" "hello" "hi there"
                three_topics = (Ok tt, three_topics) /\
  get_session_messages degraded_manager "alice" "session-1" three_topics
  = (Ok [], three_topics) /\
  (exists w',
     get_user_preferences degraded_manager "alice" three_topics
     = (Ok default_preferences, w') /\ frame three_topics w') /\
  delete_session degraded_manager "alice" "session-1" three_topics
  = (Ok false, three_topics).
Proof.
  destruct (public_operations_never_raise degraded_manager)
    as (_ & _ & _ & _ & _ & _ & _ & _ & _ & H & _).
  destruct (H eq_refl "alice" "session-1" three_topics)
    as (Hs & Hg & _ & Hp & _ & Hd & _).
  split; [apply Hs|]. split; [apply Hg|]. split; [apply Hp|].
  apply Hd. reflexivity.
Defined.

(** C8 (as stated) fails: on a manager that is not initialized but has its
    table, [create_session] writes a metadata row and [get_user_sessions]
    then returns it; and [generate_follow_up_questions] returns the two
    suggestions for a query about a warranty, not an empty result. *)
Lemma degraded_manager_uses_table :
  initialized degraded_manager = false /\
  table (after (create_session degraded_manager "alice") empty_world)
    <> table empty_world /\
  (exists row w',
     get_user_sessions degraded_manager "alice" 10
       (after (create_session degraded_manager "alice") empty_world)
     = (Ok [row], w')) /\
  exists w',
    generate_follow_up_questions degraded_manager "alice"
      "what does my warranty cover?" empty_world
    = (Ok ["Would you like me to explain the warranty coverage details?";
           "Do you need help with a warranty claim process?"], w').
Proof.
  split; [reflexivity|]. split; [|split; [|eexists; vm_compute; reflexivity]].
  - intros H.
    assert (table (after (create_session degraded_manager "alice") empty_world)
            !! ("alice", "session-f47ac10b-58cc-4372-a567-0e02b2c3d479")
            = table empty_world
            !! ("alice", "session-f47ac10b-58cc-4372-a567-0e02b2c3d479"))
      as H' by (by rewrite H).
    vm_compute in H'. discriminate.
  - eexists _, _. vm_compute. reflexivity.
Qed.

End Degraded.

(* ===================================================================== *)
(** ** Session creation                                                    *)
(* ===================================================================== *)

Section CreateSession.
Import Env Svc Mgr Logic EnvFacts Scenario Spec.

(** C4 (as the code has it): [create_session] returns the identifier it
    generated, ["session-"] followed by the UUID drawn, in every case;
    the identifier is not empty and no exception is raised.  When the
    manager has its table and the write does not fail, the table gains the
    row with [message_count = 0], [last_message = "New session started"],
    an empty [last_response] and the current time; otherwise the table is
    unchanged.  The event log is never touched. *)
Theorem create_session_returns_identifier self user_id w :
  let session_id := "session-" ++ uuid_gen w (uuid_ctr w) in
  exists w',
    create_session self user_id w = (Ok session_id, w') /\
    session_id <> "" /\
    ev_log w' = ev_log w /\
    table w' =
      if bool_decide (is_Some (session_table self)) && next_call_succeeds w
      then <[(user_id, session_id) :=
               initial_row user_id session_id (clock w)]> (table w)
      else table w.
Proof.
  unfold create_session, next_call_succeeds, initial_row.
  unfold bind, uuid4, try_except, put_item, bind, service_call, datetime_now,
    ret.
  destruct (session_table self) as [tbl|]; simpl.
  - destruct (faults w) as [|[] fs]; simpl; eexists; repeat split; done.
  - eexists; repeat split; done.
Qed.

(** C4 (as stated) fails on the previews: the initial row carries the text
    ["New session started"] as its last message. *)
Lemma create_session_preview_not_empty :
  exists row,
    table (after (create_session manager "alice") empty_world)
      !! ("alice", "session-f47ac10b-58cc-4372-a567-0e02b2c3d479")
    = Some row /\
    Env.message_count row = 0 /\
    Env.last_message row <> "".
Proof. eexists. split; [vm_compute; reflexivity|]. split; done. Qed.

End CreateSession.

(* ===================================================================== *)
(** ** Sorting                                                             *)
(* ===================================================================== *)

Section SortFacts.
Import Svc.
Context {A : Type} (le : A -> A -> bool).

Lemma insert_sorted_perm x l : insert_sorted le x l ≡ₚ x :: l.
Proof.
  induction l as [|y l IH]; simpl; [done|].
  destruct (le x y); [done|].
  rewrite IH. apply Permutation_swap.
Qed.

Lemma stable_sort_perm l : stable_sort le l ≡ₚ l.
Proof.
  induction l as [|x l IH]; simpl; [done|].
  by rewrite insert_sorted_perm, IH.
Qed.

Lemma stable_sort_length l : length (stable_sort le l) = length l.
Proof. apply Permutation_length, stable_sort_perm. Qed.

Hypothesis le_total : forall x y, le x y = true \/ le y x = true.
Hypothesis le_trans : forall x y z, le x y = true -> le y z = true -> le x z = true.



End SortFacts.

(* ===================================================================== *)
(** ** Listing the sessions of a user                                      *)
(* ===================================================================== *)

Section UserSessions.
Import Env Svc Mgr Logic StrFacts EnvFacts MgrFacts Scenario.

(** Without a table handle the list is empty. *)
Lemma get_user_sessions_unavailable self u limit w :
  session_table self = None -> get_user_sessions self u limit w = (Ok [], w).
Proof. unfold get_user_sessions. by intros ->. Qed.

(** The list never has more than [limit] rows. *)
Lemma get_user_sessions_bounded self u limit w :
  0 <= limit ->
  exists rows w',
    get_user_sessions self u limit w = (Ok rows, w') /\
    (length rows <= Z.to_nat limit)%nat.
Proof.
  intros Hl. unfold get_user_sessions.
  destruct (session_table self); [|eexists _, _; split; [done|simpl; lia]].
  unfold try_except, bind, table_load, Svc.query, bind, service_call, ret,
    raise.
  destruct (limit <? 1); case_faults;
    eexists _, _; (split; [reflexivity|]); simpl; try lia;
    rewrite length_take; lia.
Qed.

(** When [load] or [query] fails the list is empty. *)
Lemma get_user_sessions_failure self u limit w fs :
  faults w = true :: fs \/ faults w = false :: true :: fs ->
  exists w', get_user_sessions self u limit w = (Ok [], w').
Proof.
  unfold get_user_sessions.
  destruct (session_table self); [|by eexists].
  unfold try_except, bind, table_load, Svc.query, bind, service_call, ret,
    raise.
  intros [-> | ->]; simpl; by eexists.
Qed.


(** C9 at a failing input: two sessions of one user are created a minute
    apart; the UUID of the first happens to be the greater one.  The
    listing then starts with the older session, and with [limit = 1] the
    newest session is not listed at all: the order is that of the session
    identifiers, not of creation or update. *)
Theorem get_user_sessions_oldest_first :
  exists older newer w' w'',
    get_user_sessions manager "alice" 10 two_sessions
    = (Ok [older; newer], w') /\
    get_user_sessions manager "alice" 1 two_sessions = (Ok [older], w'') /\
    Env.last_updated older < Env.last_updated newer /\
    String.ltb (Env.session_id newer) (Env.session_id older) = true.
Proof.
  eexists _, _, _, _.
  split; [vm_compute; reflexivity|].
  split; [vm_compute; reflexivity|].
  split; [by vm_compute | by vm_compute].
Qed.

End UserSessions.

(* ===================================================================== *)
(** ** Conversation context                                                *)
(* ===================================================================== *)

Section ConversationContext.
Import Env Svc Mgr Logic EnvFacts MgrFacts Scenario Spec.

(** For a positive count, [l[-n:]] is the last [n] elements. *)
Lemma slice_from_neg {A} (n : Z) (l : list A) :
  1 <= n -> slice_from (- n) l = last_n (Z.to_nat n) l.
Proof.
  intros Hn. unfold slice_from, last_n.
  destruct (- n <? 0) eqn:E; [|apply Z.ltb_ge in E; lia].
  f_equal. lia.
Qed.

(** [l[-0:]] is [l[0:]], the whole list. *)
Lemma slice_from_zero {A} (l : list A) : slice_from (- 0) l = l.
Proof. unfold slice_from. simpl. by rewrite Z.min_l by lia. Qed.

(** A rendered turn is a role prefix and at most 200 characters of the
    message. *)
Lemma render_body msg :
  exists prefix body,
    render msg = prefix ++ ": " ++ body /\
    (prefix = "Human" \/ prefix = "Assistant") /\
    body = Str.str_take 200 (content msg) /\
    (String.length body <= 200)%nat.
Proof.
  unfold render.
  eexists _, _. split; [reflexivity|]. split; [|split; [reflexivity|]].
  - destruct (String.eqb _ _); auto.
  - apply StrFacts.str_take_length.
Qed.


(** C5 at a failing input: with [max_messages = 0] the slice
    [messages[-0:]] is the whole list, so the context holds both stored
    turns instead of none. *)
Theorem get_conversation_context_zero_returns_all :
  exists w',
    get_conversation_context manager "alice" "session-1" "and now?" 0
      (chat "alice" "session-1" 1 empty_world)
    = (Ok ("Human: where is my order?" ++ newline
           ++ "Assistant: It ships tomorrow."), w').
Proof. eexists. vm_compute. reflexivity. Qed.

End ConversationContext.

(* ===================================================================== *)
(** ** Preferences and follow-up questions                                 *)
(* ===================================================================== *)

Section PreferenceInference.
Import Env Svc Mgr Logic EnvFacts MgrFacts Scenario Spec.

(** Whatever the order of the set, [list(set(l))] holds the elements of
    [l], each once. *)
Lemma list_set_perm rank l : list_set rank l ≡ₚ remove_dups l.
Proof. unfold list_set. apply stable_sort_perm. Qed.

Lemma list_set_elem rank l x : x ∈ list_set rank l <-> x ∈ l.
Proof. by rewrite list_set_perm, elem_of_remove_dups. Qed.

Lemma list_set_NoDup rank l : NoDup (list_set rank l).
Proof. rewrite list_set_perm. apply NoDup_remove_dups. Qed.

(** The loop body files a message under its first category only. *)
Lemma note_message_first_category p msg :
  note_message p msg =
  match first_category (content msg) with
  | Some (Issue x) => add_issue x p
  | Some (Topic x) => add_topic x p
  | None => p
  end.
Proof.
  unfold note_message, first_category.
  destruct (Str.contains "warranty" _); [done|].
  destruct (_ || _); [done|].
  by destruct (_ || _).
Qed.

Lemma fold_note_message msgs p :
  common_issues (fold_left note_message msgs p)
  = (common_issues p ++ omap issue_of msgs)%list /\
  preferred_topics (fold_left note_message msgs p)
  = (preferred_topics p ++ omap topic_of msgs)%list.
Proof.
  revert p. induction msgs as [|m msgs IH]; intros p; simpl.
  - by rewrite !app_nil_r.
  - destruct (IH (note_message p m)) as [-> ->].
    rewrite note_message_first_category. unfold issue_of, topic_of.
    destruct (first_category (content m)) as [[x|x]|]; simpl;
      by rewrite <- ?app_assoc.
Qed.

Lemma issue_of_Some m x :
  issue_of m = Some x <-> first_category (content m) = Some (Issue x).
Proof.
  unfold issue_of. destruct (first_category _) as [[y|y]|]; naive_solver.
Qed.

Lemma topic_of_Some m x :
  topic_of m = Some x <-> first_category (content m) = Some (Topic x).
Proof.
  unfold topic_of. destruct (first_category _) as [[y|y]|]; naive_solver.
Qed.

(** The loop of [get_user_preferences]: the method lists up to five
    sessions, gathers their messages in the order of the listing, and
    looks at the last 20 user-authored ones of the gathered list
    ([user_messages[-20:]]).  Each of them is filed under one category at
    most, the first that matches in the order warranty, profile/account,
    mars/weather: an issue is in [common_issues] exactly when it is the
    first category of one of these messages, and likewise for
    [preferred_topics]; both lists are free of duplicates.  A message that
    mentions both a warranty and Mars is a warranty message only. *)
Lemma get_user_preferences_first_match self user_id w :
  (exists sessions all w1 w2 prefs,
     get_user_sessions self user_id 5 w = (Ok sessions, w1) /\
     gather_messages self user_id sessions [] w1 = (Ok all, w2) /\
     get_user_preferences self user_id w = (Ok prefs, w2) /\
     let recent := last_n 20 (List.filter is_user all) in
     (length recent <= 20)%nat /\
     (forall x, x ∈ common_issues prefs <->
                exists m, m ∈ recent /\
                          first_category (content m) = Some (Issue x)) /\
     (forall x, x ∈ preferred_topics prefs <->
                exists m, m ∈ recent /\
                          first_category (content m) = Some (Topic x)) /\
     NoDup (common_issues prefs) /\ NoDup (preferred_topics prefs)) /\
  (forall text, Str.contains "warranty" (Str.lower text) = true ->
                first_category text = Some (Issue "warranty")) /\
  first_category "Does the warranty cover a trip to Mars?"
  = Some (Issue "warranty") /\
  first_category "check my warranty status" = Some (Issue "warranty") /\
  first_category "mars weather" = Some (Topic "space_data").
Proof.
  split; [|split; [|by vm_compute]].
  - destruct (total_get_user_sessions self user_id 5 w) as (sessions & w1 & E1).
    destruct (total_gather_messages self user_id sessions [] w1)
      as (all & w2 & E2).
    eexists sessions, all, w1, w2, _.
    split; [done|]. split; [done|]. split.
    { unfold get_user_preferences.
      rewrite (bind_ok _ _ _ _ _ E1), (bind_ok _ _ _ _ _ E2). reflexivity. }
    rewrite (slice_from_neg 20) by lia.
    change (Z.to_nat 20) with 20%nat.
    destruct (fold_note_message (last_n 20 (List.filter is_user all))
                default_preferences) as [Hi Ht].
    cbn zeta. unfold remove_duplicates; cbn [common_issues preferred_topics].
    rewrite Hi, Ht. simpl.
    split; [unfold last_n; rewrite length_drop; lia|].
    split; [|split; [|split; apply list_set_NoDup]].
    + intros x. rewrite list_set_elem, list_elem_of_omap.
      by setoid_rewrite issue_of_Some.
    + intros x. rewrite list_set_elem, list_elem_of_omap.
      by setoid_rewrite topic_of_Some.
  - intros text H. unfold first_category. by rewrite H.
Qed.

(** The two-message scenario, for any history. *)
Lemma preferences_two_messages (recent : list Turn) prefs m1 m2 :
  (forall x, x ∈ common_issues prefs <->
             exists m, m ∈ recent /\
                       first_category (content m) = Some (Issue x)) ->
  (forall x, x ∈ preferred_topics prefs <->
             exists m, m ∈ recent /\
                       first_category (content m) = Some (Topic x)) ->
  m1 ∈ recent -> content m1 = "check my warranty status" ->
  m2 ∈ recent -> content m2 = "mars weather" ->
  "warranty" ∈ common_issues prefs /\ "space_data" ∈ preferred_topics prefs.
Proof.
  intros Hi Ht H1 C1 H2 C2. split.
  - apply Hi. exists m1. by rewrite C1.
  - apply Ht. exists m2. by rewrite C2.
Qed.

(** C6 at a failing input: in the world [two_histories] the user has 22
    messages in two sessions.  The two newest are ["check my warranty
    status"] and ["mars weather"], in ["session-b"]; the 20 before them,
    in ["session-a"], are a request about an account followed by 19
    questions about an order, so the most recent 20 messages of the user
    name a warranty and Mars and no account.  The method gathers
    ["session-b"] first, because the listing is by descending session
    identifier, then ["session-a"], and the last 20 of the gathered list
    are the messages of ["session-a"]: the preferences hold the issue
    ["account"] and nothing about the warranty or Mars. *)
Theorem get_user_preferences_ignores_newest :
  exists turns_a turns_b older newer w1 w2 w3,
    get_session_messages manager "alice" "session-a" two_histories
    = (Ok turns_a, w1) /\
    get_session_messages manager "alice" "session-b" two_histories
    = (Ok turns_b, w2) /\
    content <$> List.filter is_user turns_a
    = "update my account email" :: replicate 19 "where is my order?" /\
    content <$> List.filter is_user turns_b
    = ["check my warranty status"; "mars weather"] /\
    timestamp <$> last turns_a = Some (Some older) /\
    timestamp <$> head turns_b = Some (Some newer) /\
    older < newer /\
    get_user_preferences manager "alice" two_histories
    = (Ok {| communication_style := "professional";
             preferred_topics := [];
             common_issues := ["account"];
             response_length := "medium" |}, w3).
Proof.
  eexists _, _, _, _, _, _, _.
  split; [vm_compute; reflexivity|].
  split; [vm_compute; reflexivity|].
  split; [by vm_compute|].
  split; [by vm_compute|].
  split; [vm_compute; reflexivity|].
  split; [vm_compute; reflexivity|].
  split; [by vm_compute|].
  vm_compute. reflexivity.
Qed.

(** Three messages of one session, three categories; the world iterates a
    set in the order its elements were added. *)
Example preferences_three_topics :
  exists w',
    get_user_preferences manager "alice" three_topics
    = (Ok {| communication_style := "professional";
             preferred_topics := ["space_data"];
             common_issues := ["warranty"; "account"];
             response_length := "medium" |}, w').
Proof. eexists. vm_compute. reflexivity. Qed.

(** C7: [generate_follow_up_questions] returns the first three entries of
    the suggestions drawn from the history followed by those drawn from
    the query, as they come (no reordering, nothing removed), hence never
    more than three strings. *)
Theorem generate_follow_up_questions_first_three self user_id current_query w :
  exists prefs w',
    get_user_preferences self user_id w = (Ok prefs, w') /\
    generate_follow_up_questions self user_id current_query w
    = (Ok (take 3 (history_suggestions prefs
                   ++ query_suggestions current_query)), w') /\
    (length (take 3 (history_suggestions prefs
                     ++ query_suggestions current_query)) <= 3)%nat.
Proof.
  destruct (total_get_user_preferences self user_id w) as (prefs & w' & E).
  exists prefs, w'. split; [done|]. split; [|rewrite length_take; lia].
  unfold generate_follow_up_questions. rewrite (bind_ok _ _ _ _ _ E).
  unfold ret, history_suggestions, query_suggestions. do 3 f_equal.
  destruct (bool_decide ("warranty" ∈ common_issues prefs));
    destruct (bool_decide ("account" ∈ common_issues prefs));
    destruct (Str.contains "warranty" _); try reflexivity;
    destruct (_ || _); try reflexivity;
    destruct (Str.contains "mars" _); reflexivity.
Qed.

(** Four candidates, three returned: both history suggestions and the
    first of the two for the query. *)
Example follow_ups_capped :
  exists w',
    generate_follow_up_questions manager "alice"
      "What does the WARRANTY cover?" three_topics
    = (Ok ["Would you like me to check the warranty status of any other products?";
           "Do you need help updating your account information?";
           "Would you like me to explain the warranty coverage details?"], w').
Proof. eexists. vm_compute. reflexivity. Qed.

End PreferenceInference.

(* ===================================================================== *)
(** ** Storing and retrieving turns                                        *)
(* ===================================================================== *)

Section Turns.
Import Env Svc Mgr Logic EnvFacts MgrFacts Scenario Spec.

(** The loop over the events keeps what [parse_event] yields. *)
Lemma collect_messages_omap events :
  collect_messages events = omap parse_event events.
Proof.
  induction events as [|e es IH]; simpl; [done|].
  rewrite IH. by destruct (parse_event e).
Qed.

(** An event contributes a turn only with a non-empty text. *)
Lemma parse_event_content e t : parse_event e = Some t -> content t <> "".
Proof.
  unfold parse_event.
  destruct (payload e) as [[|entry ?]|]; try done.
  destruct (conversational entry) as [conv|]; try done.
  destruct (match conv_content conv with
            | Some c => default "" (text c)
            | None => ""
            end) eqn:E; [done|].
  intros [= <-]. done.
Qed.

Lemma collect_messages_nonempty events :
  Forall (fun t => content t <> "") (collect_messages events).
Proof.
  rewrite collect_messages_omap. apply Forall_forall.
  intros t (e & _ & H)%list_elem_of_omap. by eapply parse_event_content.
Qed.

Lemma omap_take_length {A B} (f : A -> option B) n l :
  (length (omap f (take n l)) <= length (omap f l))%nat.
Proof.
  rewrite <- (take_drop n l) at 2. rewrite omap_app, length_app. lia.
Qed.

Lemma sorted_by_timestamp_cases msgs w :
  sorted_by_timestamp msgs w = (Ok (stable_sort timestamp_le msgs), w) \/
  sorted_by_timestamp msgs w = (Raise TypeError, w).
Proof.
  unfold sorted_by_timestamp. destruct msgs as [|m rest]; [by left|].
  destruct (forallb _ _); [by left | by right].
Qed.

(** Whatever the state of the log, no returned turn has an empty text. *)
Lemma get_session_messages_nonempty self u s w :
  exists msgs w',
    get_session_messages self u s w = (Ok msgs, w') /\
    Forall (fun t => content t <> "") msgs.
Proof.
  unfold get_session_messages.
  destruct (negb (initialized self)); [by eexists _, _|].
  unfold try_except, bind.
  destruct (with_client self _ w) as [[events|e] w0]; [|by eexists _, _].
  destruct (sorted_by_timestamp_cases (collect_messages events) w0)
    as [-> | ->]; eexists _, _; (split; [reflexivity|]); [|constructor].
  rewrite (stable_sort_perm timestamp_le). apply collect_messages_nonempty.
Qed.

(** The turns returned are at most as many as the log holds for the
    session. *)
Lemma get_session_messages_bound self mid u s w :
  memory_id self = Some mid ->
  (forall l, ev_order w l ≡ₚ l) ->
  exists msgs w2,
    get_session_messages self u s w = (Ok msgs, w2) /\
    Forall (fun t => content t <> "") msgs /\
    (length msgs <= length (retrievable mid (_sanitize_actor_id u) s w))%nat.
Proof.
  intros Hm Hperm. unfold get_session_messages.
  destruct (negb (initialized self)).
  { eexists _, _. split_and!; [done|constructor|simpl; lia]. }
  unfold try_except, bind, with_client.
  destruct (memory_client self).
  2:{ eexists _, _. split_and!; [done|constructor|simpl; lia]. }
  unfold list_events, bind, service_call, require_memory. rewrite Hm.
  unfold ret.
  assert (forall w0, ev_log w0 = ev_log w -> ev_order w0 = ev_order w ->
    exists msgs w2,
      (let (r, w') :=
         sorted_by_timestamp
           (collect_messages
              (se_event <$>
               take 100 (ev_order w0
                           (session_events mid (_sanitize_actor_id u) s w0))))
           w0 in
       match r with
       | Ok a => (Ok a, w')
       | Raise _ => (Ok [], w')
       end) = (Ok msgs, w2) /\
      Forall (fun t => content t <> "") msgs /\
      (length msgs <= length (retrievable mid (_sanitize_actor_id u) s w))%nat)
    as Hfinish.
  { intros w0 Hl Ho.
    assert (session_events mid (_sanitize_actor_id u) s w0
            = session_events mid (_sanitize_actor_id u) s w) as ->
      by (unfold session_events; by rewrite Hl).
    rewrite Ho.
    set (found := session_events mid (_sanitize_actor_id u) s w).
    destruct (sorted_by_timestamp_cases
                (collect_messages (se_event <$> take 100 (ev_order w found)))
                w0) as [-> | ->].
    - eexists _, _. split_and!; [done| |].
      + rewrite (stable_sort_perm timestamp_le).
        apply collect_messages_nonempty.
      + rewrite stable_sort_length. unfold retrievable. fold found.
        rewrite !collect_messages_omap, fmap_take.
        etrans; [apply omap_take_length|].
        by rewrite (Hperm found).
    - eexists _, _. split_and!; [done|constructor|simpl; lia]. }
  destruct (faults w) as [|[] fs] eqn:Ef.
  - by apply (Hfinish w).
  - eexists _, _. split_and!; [done|constructor|simpl; lia].
  - by apply (Hfinish (with_faults fs w)).
Qed.

(** The metadata update never raises and leaves the event log alone. *)
Lemma update_metadata_effect self u s m r w :
  exists w',
    _update_session_metadata self u s m r w = (Ok tt, w') /\
    ev_log w' = ev_log w /\ ev_next w' = ev_next w /\
    ev_order w' = ev_order w /\ clock w' = clock w /\
    (faults w = [] -> faults w' = []).
Proof.
  unfold _update_session_metadata.
  destruct (session_table self); [|by eexists].
  unfold try_except, bind, datetime_now, get_item, put_item, bind,
    service_call, ret.
  case_faults; eexists; repeat split; try done.
Qed.

(** What [store_message] appends to the log: a prefix of the user event
    followed by the assistant event, and both of them when nothing fails
    and neither text is empty. *)
Lemma store_message_effect self mid u s m r w :
  initialized self = true -> memory_id self = Some mid ->
  let actor := _sanitize_actor_id u in
  let e1 := stored mid actor s
              (conversational_event (ev_next w) (clock w) (m, "USER")) in
  let e2 := stored mid actor s
              (conversational_event (S (ev_next w)) (clock w + 100000)
                                    (r, "ASSISTANT")) in
  exists w1 added,
    store_message self u s m r w = (Ok tt, w1) /\
    ev_order w1 = ev_order w /\
    ev_log w1 = (ev_log w ++ added)%list /\
    added `prefix_of` [e1; e2] /\
    (is_Some (memory_client self) -> faults w = [] ->
     m <> "" -> r <> "" ->
     added = [e1; e2] /\ faults w1 = []).
Proof.
  intros Hi Hm actor e1 e2. unfold store_message. rewrite Hi. simpl.
  unfold try_except, bind at 1, datetime_now, with_client.
  destruct (memory_client self) as [c|].
  2:{ simpl. exists w, []. rewrite app_nil_r.
      split_and!; first [done | apply prefix_nil | by intros [? ?]]. }
  unfold create_event. cbn [fst].
  destruct (String.eqb_spec m "") as [Hme|Hme].
  { unfold bind, raise. simpl. exists w, []. rewrite app_nil_r.
    split_and!; first [done | apply prefix_nil | by intros _ _ ? _]. }
  destruct (String.eqb_spec r "") as [Hre|Hre].
  { unfold bind, service_call, require_memory, time_sleep, raise.
    rewrite Hm. unfold ret.
    destruct (faults w) as [|[] fs] eqn:Ef; simpl.
    - eexists _, [e1].
      split_and!; [reflexivity|done|done|by exists [e2]|by intros _ _ _ ?].
    - exists (with_faults fs w), []. rewrite app_nil_r.
      split_and!; first [done | apply prefix_nil | by intros _ ?].
    - eexists _, [e1].
      split_and!; [reflexivity|done|done|by exists [e2]|by intros _ ?]. }
  unfold bind, service_call, require_memory, time_sleep.
  rewrite Hm. unfold ret.
  assert (forall w0,
            ev_order w0 = ev_order w ->
            ev_log w0 = (ev_log w ++ [e1; e2])%list ->
            (faults w = [] -> faults w0 = []) ->
            exists w1 added,
              (let (r0, w') := _update_session_metadata self u s m r w0 in
               match r0 with
               | Ok a => (Ok a, w')
               | Raise _ => (Ok (), w')
               end) = (Ok (), w1) /\
              ev_order w1 = ev_order w /\
              ev_log w1 = (ev_log w ++ added)%list /\
              added `prefix_of` [e1; e2] /\
              (is_Some (Some c) -> faults w = [] ->
               m <> "" -> r <> "" ->
               added = [e1; e2] /\ faults w1 = [])) as Hfinish.
  { intros w0 Ho Hl Hf.
    destruct (update_metadata_effect self u s m r w0)
      as (w' & -> & Hl' & _ & Ho' & _ & Hf').
    exists w', [e1; e2]. split_and!; [done|congruence|congruence|done|].
    intros _ Hw _ _. split; [done|]. by apply Hf', Hf. }
  destruct (faults w) as [|[] fs] eqn:Ef; simpl.
  - rewrite Ef. simpl. apply Hfinish; simpl; [done| |done].
    by rewrite <- app_assoc.
  - exists (with_faults fs w), []. rewrite app_nil_r.
    split_and!; first [done | apply prefix_nil | by intros _ ?].
  - destruct fs as [|[] fs']; simpl.
    + apply Hfinish; simpl; [done| |by intros ?].
      by rewrite <- app_assoc.
    + eexists _, [e1]. split_and!; [reflexivity|done|done| |by intros _ ?].
      by exists [e2].
    + apply Hfinish; simpl; [done| |by intros ?].
      by rewrite <- app_assoc.
Qed.

Lemma same_session_stored mid actor session ev :
  same_session mid actor session (stored mid actor session ev) = true.
Proof. unfold same_session, stored. simpl. by rewrite !String.eqb_refl. Qed.

Lemma session_events_app mid actor session w0 w added :
  ev_log w0 = (ev_log w ++ added)%list ->
  session_events mid actor session w0
  = (session_events mid actor session w
     ++ List.filter (same_session mid actor session) added)%list.
Proof. unfold session_events. intros ->. apply List.filter_app. Qed.

(** An event recorded with an empty text contributes no turn. *)
Lemma parse_empty_text n ts role_ :
  parse_event (conversational_event n ts ("", role_)) = None.
Proof. reflexivity. Qed.



(** C10: [get_session_messages] never returns a turn whose text is empty.
    On an initialized manager, for every pattern of service failures, a
    [store_message] whose message or response is the empty string adds
    fewer than two retrievable turns: the messages returned afterwards all
    have a non-empty text and number at most one more than the turns the
    session held before (so fewer than two on a session that was
    empty). *)
Theorem empty_text_not_retrievable self mid u s m r w :
  initialized self = true -> memory_id self = Some mid ->
  (forall l, ev_order w l ≡ₚ l) ->
  m = "" \/ r = "" ->
  exists w1 msgs w2,
    store_message self u s m r w = (Ok tt, w1) /\
    get_session_messages self u s w1 = (Ok msgs, w2) /\
    Forall (fun t => content t <> "") msgs /\
    (length msgs
     <= length (retrievable mid (_sanitize_actor_id u) s w) + 1)%nat.
Proof.
  intros Hi Hm Hperm Hempty.
  destruct (store_message_effect self mid u s m r w Hi Hm)
    as (w1 & added & E1 & Ho & Hl & Hpre & _).
  destruct (get_session_messages_bound self mid u s w1 Hm)
    as (msgs & w2 & E2 & Hne & Hlen).
  { intros l. rewrite Ho. apply Hperm. }
  exists w1, msgs, w2. split_and!; [done..|].
  etrans; [exact Hlen|]. unfold retrievable.
  rewrite (session_events_app _ _ _ _ _ _ Hl), fmap_app.
  rewrite !collect_messages_omap, omap_app, length_app.
  apply Nat.add_le_mono_l.
  destruct Hpre as [k Hk].
  destruct added as [|a [|b [|c added]]]; simplify_eq/=; try lia.
  - rewrite same_session_stored. simpl.
    destruct (parse_event _); simpl; lia.
  - rewrite !same_session_stored. simpl.
    destruct Hempty as [-> | ->]; rewrite parse_empty_text;
      destruct (parse_event _); simpl; lia.
Qed.


Lemma empty_text_not_retrievable_witness :
  exists w1 msgs w2,
    store_message manager "alice" "session-1" "" "hi there" empty_world
    = (Ok tt, w1) /\
    get_session_messages manager "alice" "session-1" w1 = (Ok msgs, w2) /\
    Forall (fun t => content t <> "") msgs /\
    (length msgs
     <= length (retrievable "customerSupportMemory-a1b2c3"
                            (_sanitize_actor_id "alice") "session-1"
                            empty_world) + 1)%nat.
Proof.
  apply (empty_text_not_retrievable manager "customerSupportMemory-a1b2c3").
  - reflexivity.
  - reflexivity.
  - intros l. simpl. symmetry. apply Permutation_rev.
  - by left.
Defined.

(** The client refuses an empty text.  With an empty message nothing is
    stored; with an empty response the user event is stored, the call
    stops there, and the metadata row is not written. *)
Example empty_message_no_turn :
  after (store_message manager "alice" "session-1" "" "hi there") empty_world
  = empty_world.
Proof. reflexivity. Qed.

Example empty_response_one_turn :
  exists w',
    get_session_messages manager "alice" "session-1"
      (after (store_message manager "alice" "session-1" "hello" "")
             empty_world)
    = (Ok [ {| role := "user"; content := "hello";
               timestamp := Some (clock empty_world) |} ], w') /\
    table (after (store_message manager "alice" "session-1" "hello" "")
                 empty_world) = ∅.
Proof. eexists. split; [vm_compute; reflexivity | reflexivity]. Qed.

End Turns.

(* ===================================================================== *)
(** ** Deleting a session                                                  *)
(* ===================================================================== *)

Section Deletion.
Import Env Svc Mgr Logic EnvFacts MgrFacts Scenario Spec.

Lemma filter_existsb_length {A} (p : A -> bool) l :
  existsb p l = true ->
  (length (List.filter (fun x => negb (p x)) l) < length l)%nat.
Proof.
  induction l as [|x l IH]; simpl; [done|].
  pose proof (List.filter_length_le (fun x => negb (p x)) l).
  destruct (p x); simpl; [lia|]. intros H'. specialize (IH H'). lia.
Qed.

(** One round of the deletion loop. *)
Lemma delete_step self sid actor ev c w :
  exists c' w',
    try_except
      (with_client self (delete_event (memory_id self) sid (eventId ev) actor)
       ;;; ret (c + 1))
      (fun _ => ret c) w = (Ok c', w') /\
    table w' = table w /\
    ((c' = c /\ ev_log w' = ev_log w) \/
     (c' = c + 1 /\ (length (ev_log w') < length (ev_log w))%nat)).
Proof.
  unfold try_except, bind, with_client.
  destruct (memory_client self); [|eexists _, _; split_and!; eauto].
  unfold delete_event, bind, service_call, require_memory, ret, raise.
  destruct (memory_id self) as [mid|];
    destruct (faults w) as [|[] fs] eqn:Ef; simpl;
    try (eexists _, _; split_and!; eauto; fail).
  - destruct (existsb _ _) eqn:Ex; simpl; eexists _, _; split_and!; eauto.
    right. split; [done|]. simpl. by apply filter_existsb_length.
  - destruct (existsb _ _) eqn:Ex; simpl; eexists _, _; split_and!; eauto.
    right. split; [done|]. simpl. by apply filter_existsb_length.
Qed.

Lemma delete_events_count self sid actor events c w :
  exists c' w',
    delete_events self sid actor events c w = (Ok c', w') /\
    table w' = table w /\
    c <= c' /\
    (length (ev_log w') <= length (ev_log w))%nat /\
    (c < c' <-> (length (ev_log w') < length (ev_log w))%nat).
Proof.
  revert c w. induction events as [|ev events IH]; intros c w.
  - eexists _, _. split; [reflexivity|]. split_and!; try done; lia.
  - cbn [delete_events].
    destruct (delete_step self sid actor ev c w) as (c1 & w1 & E1 & Ht & Hs).
    rewrite (bind_ok _ _ _ _ _ E1).
    destruct (IH c1 w1) as (c2 & w2 & E2 & Ht2 & Hc & Hl & Hiff).
    exists c2, w2. split; [done|]. split; [congruence|].
    destruct Hs as [[-> Hlog] | [-> Hlog]].
    + rewrite <- Hlog. split_and!; try done.
    + split_and!; lia.
Qed.

(** X18: [delete_session] returns true exactly when the event log lost
    an event. *)
Lemma delete_session_true_iff self u s w :
  exists b w',
    delete_session self u s w = (Ok b, w') /\
    (b = true <-> (length (ev_log w') < length (ev_log w))%nat).
Proof.
  unfold delete_session, try_except.
  unfold bind at 1. unfold with_client.
  destruct (memory_client self).
  2:{ eexists _, _. split; [reflexivity|]. split; [done|lia]. }
  destruct (list_events (memory_id self) (_sanitize_actor_id u) s 100 w)
    as [[events|e] w0] eqn:El.
  2:{ eexists _, _. split; [reflexivity|].
      pose proof (read_only_list_events (memory_id self)
                    (_sanitize_actor_id u) s 100 w) as F.
      rewrite El in F. destruct F as (Hl & _). simpl in Hl. rewrite Hl.
      split; [done|lia]. }
  pose proof (read_only_list_events (memory_id self)
                (_sanitize_actor_id u) s 100 w) as F.
  rewrite El in F. destruct F as (Hl0 & _). simpl in Hl0.
  destruct (delete_events_count self s (_sanitize_actor_id u) events 0 w0)
    as (c & w1 & E1 & Ht & Hc & Hl & Hiff).
  rewrite (bind_ok _ _ _ _ _ E1).
  rewrite Hl0 in Hiff.
  assert (forall w2, ev_log w2 = ev_log w1 ->
            exists b w',
              (Ok (0 <? c), w2) = (Ok b, w') /\
              (b = true <-> (length (ev_log w') < length (ev_log w))%nat))
    as Hfinish.
  { intros w2 H2. eexists _, _. split; [reflexivity|]. rewrite H2.
    rewrite <- Hiff. apply Z.ltb_lt. }
  destruct (session_table self); unfold bind, try_except, ret.
  - unfold delete_item, bind, service_call.
    destruct (faults w1) as [|[] fs]; simpl; by apply Hfinish.
  - by apply Hfinish.
Qed.

(** A session without events: the result is false (whatever happens to
    the metadata row). *)
Lemma delete_session_no_events self mid u s w :
  memory_id self = Some mid ->
  (forall l, ev_order w l ≡ₚ l) ->
  session_events mid (_sanitize_actor_id u) s w = [] ->
  exists w', delete_session self u s w = (Ok false, w').
Proof.
  intros Hm Hperm Hnone. unfold delete_session, try_except.
  unfold bind at 1. unfold with_client.
  destruct (memory_client self); [|by eexists].
  unfold list_events, bind at 1 2, service_call, require_memory.
  rewrite Hm.
  assert (ev_order w [] = []) as Hnil
    by (apply Permutation_nil; symmetry; apply Hperm).
  assert (forall w0, ev_log w0 = ev_log w -> ev_order w0 = ev_order w ->
            exists w',
              (let (r, w') :=
                 (let* deleted_count :=
                    delete_events self s (_sanitize_actor_id u)
                      (se_event <$>
                       take 100 (ev_order w0
                         (session_events mid (_sanitize_actor_id u) s w0))) 0 in
                  match session_table self with
                  | Some _ =>
                      try_except (delete_item u s) (fun _ => ret tt)
                  | None => ret tt
                  end ;;; ret (0 <? deleted_count)) w0 in
               match r with
               | Ok a => (Ok a, w')
               | Raise _ => ret false w'
               end) = (Ok false, w')) as Hfinish.
  { intros w0 Hl Ho.
    assert (session_events mid (_sanitize_actor_id u) s w0 = []) as ->
      by (unfold session_events in *; by rewrite Hl).
    rewrite Ho, Hnil. simpl. unfold bind, ret. simpl.
    destruct (session_table self); unfold try_except, delete_item, bind,
      service_call, ret; [|by eexists].
    destruct (faults w0) as [|[] fs]; simpl; by eexists. }
  destruct (faults w) as [|[] fs] eqn:Ef.
  - by apply (Hfinish w).
  - by eexists.
  - by apply (Hfinish (with_faults fs w)).
Qed.

Example delete_empty_session :
  exists w',
    delete_session manager "alice" "session-f47ac10b-58cc-4372-a567-0e02b2c3d479"
      (after (create_session manager "alice") empty_world) = (Ok false, w') /\
    table (after (create_session manager "alice") empty_world)
      !! ("alice", "session-f47ac10b-58cc-4372-a567-0e02b2c3d479") <> None /\
    table w' !! ("alice", "session-f47ac10b-58cc-4372-a567-0e02b2c3d479") = None.
Proof.
  eexists. split; [vm_compute; reflexivity|]. split; by vm_compute.
Qed.

Lemma filter_none {A} (p : A -> bool) l :
  existsb p l = false -> List.filter (fun x => negb (p x)) l = l.
Proof.
  induction l as [|x l IH]; simpl; [done|].
  destruct (p x); simpl; [done|]. intros H. by rewrite IH.
Qed.

Lemma filter_twice {A} (p q : A -> bool) l :
  List.filter q (List.filter p l) = List.filter (fun x => p x && q x) l.
Proof.
  induction l as [|x l IH]; simpl; [done|].
  destruct (p x); simpl; [|done]. destruct (q x); by rewrite IH.
Qed.

Lemma filter_all_false {A} (p : A -> bool) l :
  (forall x, In x l -> p x = false) -> List.filter p l = [].
Proof.
  induction l as [|x l IH]; simpl; [done|]. intros H.
  rewrite (H x) by auto. apply IH. auto.
Qed.

Section DeleteLoop.
Context (self : Manager) (mid sid actor : string).
Hypothesis Hclient : is_Some (memory_client self).
Hypothesis Hmid : memory_id self = Some mid.

Lemma delete_step_nofault ev c w :
  faults w = [] ->
  exists c' w',
    try_except
      (with_client self (delete_event (memory_id self) sid (eventId ev) actor)
       ;;; ret (c + 1))
      (fun _ => ret c) w = (Ok c', w') /\
    faults w' = [] /\ ev_order w' = ev_order w /\ c <= c' /\
    ev_log w'
    = List.filter (fun se => negb (is_event mid actor sid (eventId ev) se))
                  (ev_log w) /\
    (existsb (is_event mid actor sid (eventId ev)) (ev_log w) = true ->
     c < c').
Proof.
  intros Hf. unfold try_except, bind, with_client.
  destruct Hclient as [cl ->].
  unfold delete_event, bind, service_call, require_memory, ret, raise.
  rewrite Hmid, Hf.
  destruct (existsb _ _) eqn:Ex; simpl.
  - eexists _, _. split_and!; try done; lia.
  - eexists _, _. split_and!; try done; try lia. by rewrite filter_none.
Qed.

Lemma delete_events_nofault events c w :
  faults w = [] ->
  exists c' w',
    delete_events self sid actor events c w = (Ok c', w') /\
    faults w' = [] /\ ev_order w' = ev_order w /\ c <= c' /\
    ev_log w' = List.filter (survives mid sid actor events) (ev_log w) /\
    (forall ev, head events = Some ev ->
       existsb (is_event mid actor sid (eventId ev)) (ev_log w) = true ->
       c < c').
Proof.
  revert c w. induction events as [|ev events IH]; intros c w Hf.
  - eexists _, _. split; [reflexivity|]. split_and!; try done.
    unfold survives. simpl. clear. induction (ev_log w); simpl; congruence.
  - cbn [delete_events].
    destruct (delete_step_nofault ev c w Hf)
      as (c1 & w1 & E1 & Hf1 & Ho1 & Hc1 & Hl1 & Hpos).
    rewrite (bind_ok _ _ _ _ _ E1).
    destruct (IH c1 w1 Hf1) as (c2 & w2 & E2 & Hf2 & Ho2 & Hc2 & Hl2 & _).
    exists c2, w2. split; [done|].
    split_and!; [done|congruence|lia| |].
    + rewrite Hl2, Hl1, filter_twice. reflexivity.
    + intros ev' [= <-] Hex. specialize (Hpos Hex). lia.
Qed.

End DeleteLoop.

(** X19: a session of at most 100 events, no failing call: every event
    is deleted, the result is true and nothing can be retrieved
    afterwards. *)
Lemma delete_session_complete self mid u s w :
  is_Some (memory_client self) -> memory_id self = Some mid ->
  faults w = [] ->
  (forall l, ev_order w l ≡ₚ l) ->
  session_events mid (_sanitize_actor_id u) s w <> [] ->
  (length (session_events mid (_sanitize_actor_id u) s w) <= 100)%nat ->
  exists w1 w2,
    delete_session self u s w = (Ok true, w1) /\
    session_events mid (_sanitize_actor_id u) s w1 = [] /\
    get_session_messages self u s w1 = (Ok [], w2).
Proof.
  intros Hc Hm Hf Hperm Hsome Hlen.
  set (actor := _sanitize_actor_id u) in *.
  set (found := session_events mid actor s w) in *.
  set (events := se_event <$> ev_order w found).
  assert (list_events (memory_id self) actor s 100 w = (Ok events, w)) as El.
  { unfold list_events, bind. rewrite (service_call_ok _ Hf), Hm. simpl.
    fold found. rewrite take_ge; [done|]. by rewrite (Hperm found). }
  destruct (delete_events_nofault self mid s actor Hc Hm events 0 w Hf)
    as (c & w1 & E1 & Hf1 & Ho1 & _ & Hl1 & Hpos).
  assert (0 < c) as Hcpos.
  { destruct (ev_order w found) as [|se0 rest] eqn:Eo.
    { exfalso. apply Hsome. apply Permutation_nil. rewrite <- Eo.
      apply Hperm. }
    apply (Hpos (se_event se0)); [by subst events|].
    apply existsb_exists. exists se0.
    assert (In se0 found) as Hin.
    { apply list_elem_of_In. rewrite <- (Hperm found), Eo. by left. }
    apply filter_In in Hin as [Hin Hsame]. split; [done|].
    unfold is_event. by rewrite Hsame, String.eqb_refl. }
  assert (forall w2, ev_log w2 = ev_log w1 ->
            session_events mid actor s w2 = []) as Hgone.
  { intros w2 H2. unfold session_events. rewrite H2, Hl1, filter_twice.
    apply filter_all_false. intros se Hin.
    destruct (same_session mid actor s se) eqn:Hsame;
      [|by rewrite andb_false_r].
    rewrite andb_true_r. unfold survives.
    apply not_true_is_false. intros Hall.
    rewrite forallb_forall in Hall.
    assert (In (se_event se) events) as Hev.
    { subst events. apply in_map.
      apply list_elem_of_In. rewrite (Hperm found).
      apply list_elem_of_In, filter_In. by split. }
    specialize (Hall _ Hev). unfold is_event in Hall.
    by rewrite Hsame, String.eqb_refl in Hall. }
  assert (exists w2, ev_log w2 = ev_log w1 /\ ev_order w2 = ev_order w /\
                     delete_session self u s w = (Ok true, w2))
    as (w2 & Hl2 & Ho2 & Ed).
  { unfold delete_session, try_except. fold actor.
    unfold bind at 1. destruct Hc as [cl Hcl].
    unfold with_client. rewrite Hcl, El.
    rewrite (bind_ok _ _ _ _ _ E1).
    assert ((0 <? c) = true) as -> by lia.
    destruct (session_table self); unfold bind, try_except, ret.
    - unfold delete_item, bind. rewrite (service_call_ok _ Hf1).
      eexists. split_and!; [|  |reflexivity]; done.
    - eexists. split_and!; [| |reflexivity]; done. }
  destruct (get_session_messages_bound self mid u s w2 Hm)
    as (msgs & w3 & Eg & _ & Hb).
  { intros l. rewrite Ho2. apply Hperm. }
  exists w2, w3. split; [done|]. split; [by apply Hgone|].
  fold actor in Hb. unfold retrievable in Hb.
  rewrite (Hgone w2 Hl2) in Hb. simpl in Hb.
  destruct msgs; [done | simpl in Hb; lia].
Qed.

(** C3 at a failing input: 51 question/answer turns are stored in one
    session, 102 events.  [delete_session] lists and deletes 100 of them
    and returns true; the two oldest events are still in the log and
    [get_session_messages] returns their turns instead of the empty
    list. *)
Theorem delete_session_leaves_events :
  exists w1 w2 t1 t2,
    length (ev_log (chat "alice" "session-1" 51 empty_world)) = 102%nat /\
    delete_session manager "alice" "session-1"
      (chat "alice" "session-1" 51 empty_world) = (Ok true, w1) /\
    length (ev_log w1) = 2%nat /\
    get_session_messages manager "alice" "session-1" w1 = (Ok [t1; t2], w2).
Proof.
  eexists _, _, _, _.
  split; [by vm_compute|].
  split; [vm_compute; reflexivity|].
  split; [by vm_compute|].
  vm_compute. reflexivity.
Qed.

End Deletion.

(* ===================================================================== *)
(** ** Actor identifiers: the normal form                                  *)
(* ===================================================================== *)

Section ActorIds.
Import Str StrFacts Mgr Props.

Lemma sub_disallowed_id s :
  forall_chars is_allowed s = true -> sub_disallowed s = s.
Proof.
  induction s as [|c s IH]; simpl; [done|].
  intros [Hc Hs]%andb_true_iff. by rewrite Hc, IH.
Qed.

Lemma collapse_id s :
  has_adjacent is_underscore s = false -> collapse_underscores s = s.
Proof.
  induction s as [|c s IH]; [done|]. rewrite collapse_cons.
  destruct s as [|c' s'].
  - by destruct (is_underscore c).
  - rewrite has_adjacent_cons. intros [H1 H2]%orb_false_iff.
    rewrite (IH H2).
    destruct (is_underscore c); [|done].
    destruct (is_underscore c'); [done|done].
Qed.

(** A valid identifier is returned as it is. *)
Lemma sanitize_fixes_valid a :
  valid_actor_id a = true -> _sanitize_actor_id a = a.
Proof.
  unfold valid_actor_id, _sanitize_actor_id.
  intros [[Hh Ha]%andb_true_iff Hd%negb_true_iff]%andb_true_iff.
  rewrite (sub_disallowed_id _ Ha).
  destruct a as [|c a]; [done|].
  cbn [strip_leading_non_alnum]. rewrite Hh.
  rewrite (strip_trailing_id _ Ha), (collapse_id _ Hd). done.
Qed.

(** Every result is a valid identifier, the fallback ['user'] included. *)
Lemma sanitize_valid u : valid_actor_id (_sanitize_actor_id u) = true.
Proof.
  unfold _sanitize_actor_id.
  pose proof (sub_disallowed_allowed u) as H1.
  apply strip_leading_allowed in H1.
  pose proof (strip_leading_head (sub_disallowed u)) as H2.
  rewrite (strip_trailing_id _ H1).
  pose proof (collapse_allowed _ H1) as H3.
  pose proof (collapse_no_double
                (strip_leading_non_alnum (sub_disallowed u))) as H4.
  destruct (strip_leading_non_alnum (sub_disallowed u)) as [|c r]; [done|].
  destruct (collapse_head c r) as [r' Hr]. rewrite Hr in *.
  unfold valid_actor_id. by rewrite H2, H3, H4.
Qed.

(** X1: the identifiers [_sanitize_actor_id] leaves unchanged are exactly
    the valid ones (first character a letter or digit, then letters,
    digits, hyphens and single underscores), and sanitizing twice is the
    same as sanitizing once. *)
Theorem sanitize_actor_id_fixed_points a :
  (_sanitize_actor_id a = a <-> valid_actor_id a = true) /\
  _sanitize_actor_id (_sanitize_actor_id a) = _sanitize_actor_id a.
Proof.
  split; [split|].
  - intros <-. apply sanitize_valid.
  - apply sanitize_fixes_valid.
  - apply sanitize_fixes_valid, sanitize_valid.
Qed.

End ActorIds.

(* ===================================================================== *)
(** ** Storing: what [store_message] touches                               *)
(* ===================================================================== *)

Section Storing.
Import Env Svc Mgr Logic Spec StrFacts EnvFacts MgrFacts Scenario Props
  Examples.

Local Ltac fin :=
  simpl; first [done | lia | by left | by constructor | eauto].

(** The effect of [_update_session_metadata], whichever calls fail. *)
Lemma update_metadata_cases self u s m r w :
  exists w',
    _update_session_metadata self u s m r w = (Ok tt, w') /\
    ev_log w' = ev_log w /\ ev_next w' = ev_next w /\
    ev_order w' = ev_order w /\ clock w' = clock w /\
    uuid_gen w' = uuid_gen w /\ uuid_ctr w' = uuid_ctr w /\
    (table w' = table w \/
     exists c, (c = 1 \/ c = stored_count u s w + 1) /\
       table w' = <[(u, s) := metadata_row u s m r (clock w) c]> (table w)).
Proof.
  unfold _update_session_metadata, stored_count.
  destruct (session_table self); [|eexists; split_and!; eauto].
  unfold try_except, bind, datetime_now, get_item, put_item, bind,
    service_call, ret.
  case_faults; eexists; (split; [reflexivity|]); simpl;
    split_and!; eauto.
Qed.

Lemma update_metadata_nofault self tbl u s m r w :
  session_table self = Some tbl -> faults w = [] ->
  _update_session_metadata self u s m r w
  = (Ok tt,
     with_table (<[(u, s) := metadata_row u s m r (clock w)
                               (stored_count u s w + 1)]> (table w)) w).
Proof.
  intros Ht Hf. unfold _update_session_metadata, stored_count. rewrite Ht.
  unfold try_except, bind, datetime_now, get_item, put_item, bind.
  rewrite (service_call_ok _ Hf). simpl.
  rewrite (service_call_ok _ Hf). reflexivity.
Qed.

(** The effect of [store_message], for every manager and every failure
    schedule. *)
Lemma store_message_cases self u s m r w :
  exists w1 added,
    store_message self u s m r w = (Ok tt, w1) /\
    ev_order w1 = ev_order w /\
    uuid_gen w1 = uuid_gen w /\ uuid_ctr w1 = uuid_ctr w /\
    clock w <= clock w1 /\
    ev_log w1 = (ev_log w ++ added)%list /\
    (length added <= 2)%nat /\
    Forall (in_session self u s) added /\
    (table w1 = table w \/
     exists c now, (c = 1 \/ c = stored_count u s w + 1) /\
       table w1 = <[(u, s) := metadata_row u s m r now c]> (table w)).
Proof.
  unfold store_message.
  destruct (initialized self); simpl.
  2:{ exists w, []. rewrite app_nil_r. split_and!; fin. }
  unfold try_except, bind at 1, datetime_now, with_client.
  destruct (memory_client self) as [c|].
  2:{ simpl. exists w, []. rewrite app_nil_r. split_and!; fin. }
  unfold create_event. cbn [fst].
  destruct (String.eqb_spec m "") as [Hme|Hme].
  { unfold bind, raise. simpl. exists w, []. rewrite app_nil_r.
    split_and!; fin. }
  unfold bind, service_call, require_memory, time_sleep.
  destruct (memory_id self) as [mid|] eqn:Hm.
  2:{ unfold raise. destruct (faults w) as [|[] fs]; simpl;
        eexists _, []; rewrite app_nil_r; split_and!; fin. }
  unfold ret.
  set (e1 := stored mid (_sanitize_actor_id u) s
               (conversational_event (ev_next w) (clock w) (m, "USER"))).
  set (e2 := stored mid (_sanitize_actor_id u) s
               (conversational_event (S (ev_next w)) (clock w + 100000)
                                     (r, "ASSISTANT"))).
  assert (in_session self u s e1 /\ in_session self u s e2) as [He1 He2].
  { unfold in_session. by rewrite Hm. }
  destruct (String.eqb_spec r "") as [Hre|Hre].
  { unfold raise. destruct (faults w) as [|[] fs] eqn:Ef; simpl.
    - eexists _, [e1]. split_and!; try fin; by repeat constructor.
    - exists (with_faults fs w), []. rewrite app_nil_r. split_and!; fin.
    - eexists _, [e1]. split_and!; try fin; by repeat constructor. }
  assert (forall w0,
            ev_order w0 = ev_order w -> uuid_gen w0 = uuid_gen w ->
            uuid_ctr w0 = uuid_ctr w -> clock w <= clock w0 ->
            table w0 = table w ->
            ev_log w0 = (ev_log w ++ [e1; e2])%list ->
            exists w1 added,
              (let (r0, w') := _update_session_metadata self u s m r w0 in
               match r0 with
               | Ok a => (Ok a, w')
               | Raise _ => (Ok (), w')
               end) = (Ok (), w1) /\
              ev_order w1 = ev_order w /\
              uuid_gen w1 = uuid_gen w /\ uuid_ctr w1 = uuid_ctr w /\
              clock w <= clock w1 /\
              ev_log w1 = (ev_log w ++ added)%list /\
              (length added <= 2)%nat /\
              Forall (in_session self u s) added /\
              (table w1 = table w \/
               exists c now, (c = 1 \/ c = stored_count u s w + 1) /\
                 table w1 = <[(u, s) := metadata_row u s m r now c]> (table w)))
    as Hfinish.
  { intros w0 Ho Hg Hc Hk Ht Hl.
    destruct (update_metadata_cases self u s m r w0)
      as (w' & -> & Hl' & _ & Ho' & Hk' & Hg' & Hc' & Ht').
    exists w', [e1; e2].
    split_and!; try congruence; try lia; try (simpl; lia);
      try (by repeat constructor).
    destruct Ht' as [Ht' | (c0 & Hc0 & Ht')]; [left; congruence|].
    right. exists c0, (clock w0). split.
    - unfold stored_count in *. by rewrite Ht in Hc0.
    - by rewrite Ht', Ht. }
  destruct (faults w) as [|[] fs] eqn:Ef; simpl.
  - rewrite Ef. simpl. apply Hfinish; simpl; try done; [lia|].
    by rewrite <- app_assoc.
  - exists (with_faults fs w), []. rewrite app_nil_r.
    split_and!; fin.
  - destruct fs as [|[] fs']; simpl.
    + apply Hfinish; simpl; try done; [lia|]. by rewrite <- app_assoc.
    + eexists _, [e1]. split_and!; try fin; by repeat constructor.
    + apply Hfinish; simpl; try done; [lia|]. by rewrite <- app_assoc.
Qed.

Lemma same_session_in_session self u s mid' a' s' se :
  in_session self u s se -> same_session mid' a' s' se = true ->
  (memory_id self, _sanitize_actor_id u, s) = (Some mid', a', s').
Proof.
  intros (Hm & Ha & Hs). unfold same_session.
  rewrite !andb_true_iff, !String.eqb_eq. intros [[H1 H2] H3].
  congruence.
Qed.

(** X5: [store_message] never raises; it appends at most two events, all
    of the session it was called for, so the events of every other
    session are what they were; and it changes no metadata row but that
    of the session. *)
Theorem store_message_touches_one_session self u s m r w :
  exists w1 added,
    store_message self u s m r w = (Ok tt, w1) /\
    ev_log w1 = (ev_log w ++ added)%list /\
    (length added <= 2)%nat /\
    Forall (in_session self u s) added /\
    (forall mid' a' s',
        (memory_id self, _sanitize_actor_id u, s) <> (Some mid', a', s') ->
        session_events mid' a' s' w1 = session_events mid' a' s' w) /\
    (forall k, k <> (u, s) -> table w1 !! k = table w !! k).
Proof.
  destruct (store_message_cases self u s m r w)
    as (w1 & added & E & _ & _ & _ & _ & Hl & Hn & Hin & Ht).
  exists w1, added. split_and!; try done.
  - intros mid' a' s' Hne. unfold session_events.
    rewrite Hl, List.filter_app.
    rewrite (filter_all_false _ added); [by rewrite app_nil_r|].
    intros se Hse. apply not_true_is_false. intros Hsame.
    apply Hne. rewrite Forall_forall in Hin.
    eapply same_session_in_session; [|exact Hsame].
    by apply Hin, list_elem_of_In.
  - intros k Hk. destruct Ht as [-> | (c & now & _ & ->)]; [done|].
    by rewrite lookup_insert_ne.
Qed.

(** Without failures and with two texts that are not empty: two events,
    and the row with the incremented count. *)
Lemma store_message_nofault self mid u s m r w :
  initialized self = true -> is_Some (memory_client self) ->
  memory_id self = Some mid -> faults w = [] ->
  m <> "" -> r <> "" ->
  exists w1,
    store_message self u s m r w = (Ok tt, w1) /\
    faults w1 = [] /\ ev_order w1 = ev_order w /\
    clock w1 = clock w + 100000 /\
    ev_next w1 = S (S (ev_next w)) /\
    ev_log w1 =
      (ev_log w ++
       [stored mid (_sanitize_actor_id u) s
          (conversational_event (ev_next w) (clock w) (m, "USER"));
        stored mid (_sanitize_actor_id u) s
          (conversational_event (S (ev_next w)) (clock w + 100000)
                                (r, "ASSISTANT"))])%list /\
    table w1 =
      match session_table self with
      | Some _ =>
          <[(u, s) := metadata_row u s m r (clock w + 100000)
                        (stored_count u s w + 1)]> (table w)
      | None => table w
      end.
Proof.
  intros Hi [c Hc] Hm Hf Hme Hre. unfold store_message. rewrite Hi. simpl.
  unfold try_except, bind at 1, datetime_now, with_client. rewrite Hc.
  unfold create_event. cbn [fst].
  apply String.eqb_neq in Hme, Hre. rewrite Hme, Hre.
  unfold bind, require_memory, time_sleep.
  rewrite (service_call_ok _ Hf), Hm. simpl.
  rewrite service_call_ok by done. simpl.
  destruct (session_table self) as [tbl|] eqn:Ht.
  - erewrite update_metadata_nofault; [|done|done].
    eexists. split; [reflexivity|]. simpl.
    split_and!; try done. by rewrite <- app_assoc.
  - unfold _update_session_metadata. rewrite Ht.
    eexists. split; [reflexivity|]. simpl.
    split_and!; try done. by rewrite <- app_assoc.
Qed.

(** X6: in a conversation without failures and without empty texts each
    exchange stores two events and adds one to [message_count], which so
    counts exchanges, not messages; the rows of other sessions are not
    touched and the row of the session holds the previews of the last
    exchange. *)
Theorem message_count_counts_exchanges self mid tbl u s xs w :
  initialized self = true -> is_Some (memory_client self) ->
  memory_id self = Some mid -> session_table self = Some tbl ->
  faults w = [] -> Forall texts_ok xs ->
  exists w1,
    converse self u s xs w = (Ok tt, w1) /\
    stored_count u s w1 = stored_count u s w + Z.of_nat (length xs) /\
    length (ev_log w1) = (length (ev_log w) + 2 * length xs)%nat /\
    (forall k, k <> (u, s) -> table w1 !! k = table w !! k) /\
    (forall x, last xs = Some x ->
       exists now,
         table w1 !! (u, s)
         = Some (metadata_row u s (snd (fst x)) (snd x) now
                              (stored_count u s w1))).
Proof.
  intros Hi Hc Hm Ht. revert w.
  induction xs as [|[[d q] r] xs IH]; intros w Hf Hxs.
  - exists w. split_and!; [done|simpl; lia|simpl; lia|done|done].
  - apply Forall_cons in Hxs as [[Hq Hr] Hxs]. simpl in Hq, Hr.
    cbn [converse]. unfold bind at 1, time_sleep.
    set (w0 := with_clock (clock w + Z.of_nat d) w).
    destruct (store_message_nofault self mid u s q r w0 Hi Hc Hm Hf Hq Hr)
      as (w1 & E1 & Hf1 & _ & _ & _ & Hl1 & Ht1).
    rewrite Ht in Ht1.
    rewrite (bind_ok _ _ _ _ _ E1).
    destruct (IH w1 Hf1 Hxs) as (w2 & E2 & Hcnt & Hlen & Hother & Hlast).
    assert (stored_count u s w1 = stored_count u s w + 1) as Hc1.
    { unfold stored_count at 1. by rewrite Ht1, lookup_insert_eq. }
    exists w2. split_and!; [done| | | |].
    + rewrite Hcnt, Hc1. simpl length. lia.
    + rewrite Hlen, Hl1, length_app. simpl. lia.
    + intros k Hk. rewrite (Hother k Hk), Ht1.
      by rewrite lookup_insert_ne.
    + intros x Hx. destruct xs as [|x' xs'].
      * simpl in Hx. injection Hx as <-. simpl.
        assert (w2 = w1) as -> by (simpl in E2; by injection E2 as <-).
        exists (clock w0 + 100000).
        rewrite Ht1, lookup_insert_eq. do 2 f_equal.
        unfold stored_count at 2. by rewrite Ht1, lookup_insert_eq.
      * apply Hlast. exact Hx.
Qed.

Lemma message_count_counts_exchanges_witness :
  exists w1,
    converse manager "alice" "session-1" small_talk empty_world
    = (Ok tt, w1) /\
    stored_count "alice" "session-1" w1 = 2 /\
    length (ev_log w1) = 4%nat.
Proof.
  destruct (message_count_counts_exchanges manager
              "customerSupportMemory-a1b2c3"
              (MkTable "customer-support-sessions")
              "alice" "session-1" small_talk empty_world)
    as (w1 & E & Hc & Hl & _).
  - reflexivity.
  - by eexists.
  - reflexivity.
  - reflexivity.
  - reflexivity.
  - repeat constructor; discriminate.
  - exists w1. split; [exact E|]. split; [exact Hc | exact Hl].
Defined.

(** X7: when the read of the metadata row fails while the writes succeed,
    [store_message] (of two texts that are not empty) still succeeds and
    the row is written with [message_count] 1, whatever the count was. *)
Theorem message_count_reset_on_read_failure self mid tbl u s m r w fs :
  initialized self = true -> is_Some (memory_client self) ->
  memory_id self = Some mid -> session_table self = Some tbl ->
  faults w = false :: false :: true :: false :: fs ->
  m <> "" -> r <> "" ->
  exists w1,
    store_message self u s m r w = (Ok tt, w1) /\
    table w1 !! (u, s)
    = Some (metadata_row u s m r (clock w + 100000) 1).
Proof.
  intros Hi [c Hc] Hm Ht Hf Hme Hre. unfold store_message. rewrite Hi. simpl.
  unfold try_except, bind at 1, datetime_now, with_client. rewrite Hc.
  unfold create_event. cbn [fst].
  apply String.eqb_neq in Hme, Hre. rewrite Hme, Hre.
  unfold bind, require_memory, time_sleep, service_call.
  rewrite Hf, Hm. simpl.
  unfold _update_session_metadata. rewrite Ht.
  unfold try_except, bind, datetime_now, get_item, put_item, bind,
    service_call, ret. simpl.
  eexists. split; [reflexivity|]. simpl. by rewrite lookup_insert_eq.
Qed.

Lemma message_count_reset_on_read_failure_witness :
  exists w1,
    store_message manager "alice" "session-1" "hello" "hi there" flaky_world
    = (Ok tt, w1) /\
    table w1 !! ("alice", "session-1")
    = Some (metadata_row "alice" "session-1" "hello" "hi there"
                         (clock flaky_world + 100000) 1).
Proof.
  apply (message_count_reset_on_read_failure manager
           "customerSupportMemory-a1b2c3"
           (MkTable "customer-support-sessions")
           "alice" "session-1" "hello" "hi there" flaky_world []).
  - reflexivity.
  - by eexists.
  - reflexivity.
  - reflexivity.
  - reflexivity.
  - discriminate.
  - discriminate.
Defined.

End Storing.

(* ===================================================================== *)
(** ** The layout of the metadata table                                    *)
(* ===================================================================== *)

Section TableLayout.
Import Env Svc Mgr Logic Spec StrFacts EnvFacts MgrFacts Scenario Props.

Lemma stored_count_nonneg u s w : table_ok w -> 0 <= stored_count u s w.
Proof.
  intros H. unfold stored_count.
  destruct (table w !! (u, s)) as [row|] eqn:E; [|done].
  by destruct (H _ _ E) as (_ & _ & _ & ?).
Qed.

Lemma metadata_row_ok u s m r now c :
  0 <= c -> row_ok (u, s) (metadata_row u s m r now c).
Proof.
  intros Hc. unfold row_ok, metadata_row.
  split_and!; [done|apply str_take_length|apply str_take_length|done].
Qed.

(** The effect of [create_session], whichever calls fail. *)
Lemma create_session_cases self u w :
  exists sid w',
    create_session self u w = (Ok sid, w') /\
    sid = "session-" ++ uuid_gen w (uuid_ctr w) /\
    ev_log w' = ev_log w /\ ev_order w' = ev_order w /\
    clock w' = clock w /\
    (table w' = table w \/
     table w' = <[(u, sid) := initial_row u sid (clock w)]> (table w)).
Proof.
  unfold create_session, initial_row.
  unfold bind, uuid4, try_except, put_item, bind, service_call, datetime_now,
    ret.
  destruct (session_table self) as [tbl|]; simpl.
  - destruct (faults w) as [|[] fs]; simpl; eexists _, _;
      split_and!; eauto.
  - eexists _, _; split_and!; eauto.
Qed.

(** [delete_session] changes the table by deleting the row of the
    session at most. *)
Lemma delete_session_table self u s w :
  exists b w',
    delete_session self u s w = (Ok b, w') /\
    (table w' = table w \/ table w' = delete (u, s) (table w)).
Proof.
  unfold delete_session, try_except.
  unfold bind at 1. unfold with_client.
  destruct (memory_client self); [|eexists _, _; eauto].
  pose proof (read_only_list_events (memory_id self)
                (_sanitize_actor_id u) s 100 w) as F.
  destruct (list_events (memory_id self) (_sanitize_actor_id u) s 100 w)
    as [[events|e] w0] eqn:El; destruct F as (_ & _ & _ & Ht0 & _);
    simpl in Ht0.
  2:{ eexists _, _. split; [reflexivity|]. by left. }
  destruct (delete_events_count self s (_sanitize_actor_id u) events 0 w0)
    as (c & w1 & E1 & Ht & _).
  rewrite (bind_ok _ _ _ _ _ E1).
  destruct (session_table self); unfold bind, try_except, ret.
  - unfold delete_item, bind, service_call.
    destruct (faults w1) as [|[] fs]; simpl; eexists _, _;
      (split; [reflexivity|]); simpl; rewrite ?Ht, ?Ht0; eauto.
  - eexists _, _. split; [reflexivity|]. left. congruence.
Qed.

(** X8: every operation keeps the layout of the metadata table: each row
    is stored under its own [user_id] and [session_id], its two previews
    have at most 100 characters and its [message_count] is not
    negative. *)
Theorem table_layout_preserved self w :
  table_ok w ->
  (forall u s m r, table_ok (after (store_message self u s m r) w)) /\
  (forall u, table_ok (after (create_session self u) w)) /\
  (forall u s, table_ok (after (delete_session self u s) w)) /\
  (forall u limit, table_ok (after (get_user_sessions self u limit) w)) /\
  (forall u, table_ok (after (get_user_preferences self u) w)).
Proof.
  intros Hok. unfold after. split_and!.
  - intros u s m r.
    destruct (store_message_cases self u s m r w)
      as (w1 & added & -> & _ & _ & _ & _ & _ & _ & _ & Ht).
    unfold table_ok in *. simpl.
    destruct Ht as [-> | (c & now & Hc & ->)]; [done|].
    apply map_Forall_insert_2; [|done]. apply metadata_row_ok.
    pose proof (stored_count_nonneg u s w Hok). destruct Hc; lia.
  - intros u.
    destruct (create_session_cases self u w)
      as (sid & w' & -> & _ & _ & _ & _ & Ht).
    unfold table_ok in *. simpl.
    destruct Ht as [-> | ->]; [done|].
    apply map_Forall_insert_2; [|done].
    unfold row_ok, initial_row.
    split_and!; [done| | |done]; by apply Nat.leb_le.
  - intros u s.
    destruct (delete_session_table self u s w) as (b & w' & -> & Ht).
    unfold table_ok in *. simpl.
    destruct Ht as [-> | ->]; [done|]. by apply map_Forall_delete.
  - intros u limit.
    destruct (read_only_get_user_sessions self u limit w)
      as (_ & _ & _ & Ht & _).
    unfold table_ok in *. by rewrite Ht.
  - intros u.
    destruct (read_only_get_user_preferences self u w)
      as (_ & _ & _ & Ht & _).
    unfold table_ok in *. by rewrite Ht.
Qed.

Lemma table_layout_preserved_witness :
  table_ok empty_world /\
  table_ok (after (store_message manager "alice" "session-1"
                                 "hello" "hi there") empty_world) /\
  table_ok (after (create_session manager "alice") empty_world).
Proof.
  assert (table_ok empty_world) as H by apply map_Forall_empty.
  destruct (table_layout_preserved manager empty_world H)
    as (Hstore & Hcreate & _).
  split; [exact H|]. split; [apply Hstore | apply Hcreate].
Defined.

End TableLayout.

(* ===================================================================== *)
(** ** The turns [get_session_messages] returns                            *)
(* ===================================================================== *)

(** Sorting when the comparison is a total preorder on the elements at
    hand only. *)
Section SortOn.
Import Svc.
Context {A : Type} (le : A -> A -> bool) (P : A -> Prop).
Hypothesis le_total_on :
  forall x y, P x -> P y -> le x y = true \/ le y x = true.
Hypothesis le_trans_on :
  forall x y z, P x -> P y -> P z ->
    le x y = true -> le y z = true -> le x z = true.

Lemma insert_sorted_sorted_on x l :
  P x -> Forall P l ->
  StronglySorted (fun a b => le a b = true) l ->
  StronglySorted (fun a b => le a b = true) (insert_sorted le x l).
Proof.
  intros Hx Hl Hs. induction Hs as [|y l Hs IH Hy]; simpl.
  - repeat constructor.
  - apply Forall_cons in Hl as [Py Pl].
    destruct (le x y) eqn:E.
    + constructor; [by constructor|].
      constructor; [done|].
      rewrite Forall_forall in Hy, Pl |- *. intros z Hz.
      apply (le_trans_on x y z); auto.
    + constructor; [by apply IH|].
      rewrite (insert_sorted_perm le). constructor; [|done].
      destruct (le_total_on x y Hx Py); congruence.
Qed.

Lemma stable_sort_sorted_on l :
  Forall P l ->
  StronglySorted (fun a b => le a b = true) (stable_sort le l).
Proof.
  induction l as [|x l IH]; simpl; [constructor|].
  intros [Px Pl]%Forall_cons.
  apply insert_sorted_sorted_on; [done| |by apply IH].
  by rewrite (stable_sort_perm le).
Qed.

End SortOn.

Section TurnShape.
Import Env Svc Mgr Logic Spec StrFacts EnvFacts MgrFacts Scenario Props.

Lemma parse_event_role e t :
  parse_event e = Some t -> role t = "user" \/ role t = "assistant".
Proof.
  unfold parse_event. destruct (payload e) as [[|entry ?]|]; try done.
  destruct (conversational entry) as [conv|]; [|done].
  destruct (match conv_content conv with Some c => default "" (text c)
            | None => "" end); [done|].
  intros [= <-]. simpl. destruct (String.eqb _ _); [by left|by right].
Qed.

Lemma collect_messages_well_formed events :
  Forall well_formed_turn (collect_messages events).
Proof.
  rewrite collect_messages_omap. apply Forall_forall.
  intros t (e & _ & H)%list_elem_of_omap. split.
  - by eapply parse_event_role.
  - by eapply parse_event_content.
Qed.

Lemma collect_messages_length events :
  (length (collect_messages events) <= length events)%nat.
Proof.
  induction events as [|e events IH]; simpl; [done|].
  destruct (parse_event e); simpl; lia.
Qed.

Lemma timestamp_le_total_kind m a b :
  same_kind m a -> same_kind m b ->
  timestamp_le a b = true \/ timestamp_le b a = true.
Proof.
  unfold same_kind, same_key_type, timestamp_le.
  destruct (timestamp m), (timestamp a) as [x|], (timestamp b) as [y|];
    try done; try by left.
  intros _ _. destruct (Z.leb_spec x y); [by left|right].
  apply Z.leb_le. lia.
Qed.

Lemma timestamp_le_trans_kind m a b c :
  same_kind m a -> same_kind m b -> same_kind m c ->
  timestamp_le a b = true -> timestamp_le b c = true ->
  timestamp_le a c = true.
Proof.
  unfold same_kind, same_key_type, timestamp_le.
  destruct (timestamp m), (timestamp a) as [x|], (timestamp b) as [y|],
    (timestamp c) as [x'|]; try done.
  rewrite !Z.leb_le. lia.
Qed.

(** When the sort succeeds its result is a permutation in timestamp
    order. *)
Lemma sorted_by_timestamp_sorted msgs w sorted w' :
  sorted_by_timestamp msgs w = (Ok sorted, w') ->
  w' = w /\ sorted ≡ₚ msgs /\
  StronglySorted (fun a b => timestamp_le a b = true) sorted.
Proof.
  unfold sorted_by_timestamp. destruct msgs as [|m rest].
  { intros [= <- <-]. split_and!; [done|done|constructor]. }
  destruct (forallb _ rest) eqn:E; [|done].
  intros [= <- <-]. split; [done|].
  split; [apply (stable_sort_perm timestamp_le (m :: rest))|].
  apply (stable_sort_sorted_on timestamp_le (same_kind m)
           (timestamp_le_total_kind m) (timestamp_le_trans_kind m)
           (m :: rest)).
  constructor.
  - unfold same_kind, same_key_type. by destruct (timestamp m).
  - apply Forall_forall. intros t Ht.
    rewrite forallb_forall in E. apply E. by apply list_elem_of_In.
Qed.

Lemma shaped_nil w w' : frame w w' -> shaped w [] w'.
Proof.
  intros H. split; [done|]. split; [simpl; lia|]. split; constructor.
Qed.

(** X9: whatever the log holds and whichever call fails,
    [get_session_messages] returns at most 100 turns, each with the role
    [user] or [assistant] and a non-empty text, ordered by timestamp, and
    writes nothing. *)
Theorem get_session_messages_shape self u s w :
  exists msgs w',
    get_session_messages self u s w = (Ok msgs, w') /\
    frame w w' /\
    (length msgs <= 100)%nat /\
    Forall well_formed_turn msgs /\
    StronglySorted (fun a b => timestamp_le a b = true) msgs.
Proof.
  change (exists msgs w',
             get_session_messages self u s w = (Ok msgs, w') /\
             shaped w msgs w').
  unfold get_session_messages.
  destruct (negb (initialized self)).
  { eexists _, _. split; [done|]. apply shaped_nil, frame_refl. }
  unfold try_except, bind, with_client.
  destruct (memory_client self).
  2:{ eexists _, _. split; [done|]. apply shaped_nil, frame_refl. }
  unfold list_events, bind, service_call, require_memory, raise, ret.
  assert (Hgen : forall events w0,
    (length events <= 100)%nat -> frame w w0 ->
    exists msgs w',
      (let (r, w') := sorted_by_timestamp (collect_messages events) w0 in
       match r with Ok a => (Ok a, w') | Raise _ => (Ok [], w') end)
      = (Ok msgs, w') /\ shaped w msgs w').
  { intros events w0 Hlen Hfr.
    destruct (sorted_by_timestamp_cases (collect_messages events) w0)
      as [E | ->].
    2:{ eexists _, _. split; [done|]. by apply shaped_nil. }
    rewrite E. apply sorted_by_timestamp_sorted in E as (_ & Hp & Hs).
    eexists _, _. split; [done|]. split; [done|]. split_and!; [| |done].
    - rewrite Hp. pose proof (collect_messages_length events). lia.
    - rewrite Hp. apply collect_messages_well_formed. }
  assert (Hlen : forall w0 mid,
    (length (se_event <$>
             take 100 (ev_order w0 (session_events mid (_sanitize_actor_id u)
                                      s w0))) <= 100)%nat).
  { intros. rewrite length_fmap, length_take. lia. }
  destruct (faults w) as [|[] fs] eqn:Ef.
  - destruct (memory_id self) as [mid|].
    + apply Hgen; [apply Hlen | apply frame_refl].
    + eexists _, _. split; [done|]. apply shaped_nil, frame_refl.
  - eexists _, _. split; [done|]. apply shaped_nil, frame_with_faults.
  - destruct (memory_id self) as [mid|].
    + apply Hgen; [apply Hlen | apply frame_with_faults].
    + eexists _, _. split; [done|]. apply shaped_nil, frame_with_faults.
Qed.

End TurnShape.

(* ===================================================================== *)
(** ** A conversation, stored and read back                                *)
(* ===================================================================== *)

Section Conversation.
Import Env Svc Mgr Logic Spec StrFacts EnvFacts MgrFacts Scenario Props
  Examples.















End Conversation.

(* ===================================================================== *)
(** ** The chat page: the rebuilt history                                  *)
(* ===================================================================== *)

Section ChatPage.
Import Env Svc Mgr Logic Spec EnvFacts MgrFacts Scenario Props.

(** The loop, from any point of the list: what it appends. *)
Lemma reconstruct_chat_history_pairs messages seen cur acc :
  (forall q, cur = Some q ->
     exists m, m ∈ seen /\ role m = "user" /\ content m = q) ->
  exists new,
    UI.reconstruct_chat_history messages cur acc = (acc ++ new)%list /\
    Forall (paired_from (seen ++ messages)) new /\
    (length new <= length (List.filter is_assistant messages))%nat.
Proof.
  revert seen cur acc. induction messages as [|msg rest IH];
    intros seen cur acc Hcur.
  - exists []. rewrite app_nil_r. split_and!; [done|constructor|done].
  - assert (seen ++ msg :: rest = (seen ++ [msg]) ++ rest)%list as Happ
      by (by rewrite <- app_assoc).
    cbn [UI.reconstruct_chat_history List.filter]. unfold is_assistant at 1.
    destruct (String.eqb (role msg) "user") eqn:Eu.
    { apply String.eqb_eq in Eu.
      destruct (IH (seen ++ [msg])%list (Some (content msg)) acc)
        as (new & -> & Hnew & Hlen).
      { intros q [= <-]. exists msg. split_and!; [|done|done].
        apply elem_of_app. right. by left. }
      exists new. rewrite Happ. split_and!; [done|done|].
      rewrite Eu. simpl. done. }
    destruct (String.eqb (role msg) "assistant") eqn:Ea.
    2:{ destruct (IH (seen ++ [msg])%list cur acc) as (new & -> & Hnew & Hlen).
        { intros q Hq. destruct (Hcur q Hq) as (m0 & Hin & Hm0).
          exists m0. split; [|done]. apply elem_of_app. by left. }
        exists new. rewrite Happ. by split_and!. }
    apply String.eqb_eq in Ea.
    destruct cur as [[|c q]|].
    + destruct (IH (seen ++ [msg])%list (Some "") acc)
        as (new & -> & Hnew & Hlen).
      { intros q Hq. destruct (Hcur q Hq) as (m0 & Hin & Hm0).
        exists m0. split; [|done]. apply elem_of_app. by left. }
      exists new. rewrite Happ. split_and!; [done|done|simpl; lia].
    + destruct (IH (seen ++ [msg])%list None
                  (acc ++ [ {| UI.query := String c q;
                               UI.response := content msg |} ])%list)
        as (new & -> & Hnew & Hlen); [done|].
      exists ({| UI.query := String c q; UI.response := content msg |}
              :: new).
      rewrite Happ. split_and!; [by rewrite <- app_assoc| |simpl; lia].
      constructor; [|done].
      destruct (Hcur (String c q) eq_refl) as (m0 & Hin & Hr & Hq).
      split_and!; [done| |].
      * exists m0. split_and!; [|done|done].
        apply elem_of_app. left. apply elem_of_app. by left.
      * exists msg. split_and!; [|done|done].
        apply elem_of_app. left. apply elem_of_app. right. by left.
    + destruct (IH (seen ++ [msg])%list None acc)
        as (new & -> & Hnew & Hlen); [done|].
      exists new. rewrite Happ. split_and!; [done|done|simpl; lia].
Qed.

(** X11: switching to a stored session never fails and writes nothing;
    every entry of the rebuilt history pairs the text of a returned user
    turn, never empty, with the text of a returned assistant turn, and
    there are at most as many entries as assistant turns. *)
Theorem load_session_pairs_stored_turns self u s w :
  exists messages history w',
    get_session_messages self u s w = (Ok messages, w') /\
    UI.load_session self u s w = (Ok history, w') /\
    frame w w' /\
    Forall (paired_from messages) history /\
    (length history <= length (List.filter is_assistant messages))%nat.
Proof.
  destruct (total_get_session_messages self u s w) as (messages & w' & E).
  destruct (reconstruct_chat_history_pairs messages [] None [])
    as (new & Hr & Hnew & Hlen); [done|].
  exists messages, new, w'. split_and!; [done| | |done|done].
  - unfold UI.load_session. rewrite (bind_ok _ _ _ _ _ E).
    unfold ret. by rewrite Hr.
  - pose proof (read_only_get_session_messages self u s w) as F.
    by rewrite E in F.
Qed.

End ChatPage.

(* ===================================================================== *)
(** ** Listing sessions: which rows, in which order                        *)
(* ===================================================================== *)

Section Listing.
Import Env Svc Mgr Logic Spec StrFacts EnvFacts MgrFacts Scenario Props.



(** The partition of a user holds the rows stored under keys of the
    user. *)
Lemma partition_elem u t k r :
  (k, r) ∈ partition u t <-> fst k = u /\ t !! k = Some r.
Proof.
  unfold partition. rewrite list_elem_of_In, filter_In, <- list_elem_of_In.
  rewrite elem_of_map_to_list. simpl.
  rewrite String.eqb_eq. tauto.
Qed.







Lemma filter_length_perm {A} (p : A -> bool) l l' :
  l ≡ₚ l' -> length (List.filter p l) = length (List.filter p l').
Proof.
  induction 1 as [|x l l' _ IH|x y l|l1 l2 l3 _ IH1 _ IH2]; simpl;
    [done| | |congruence].
  - destruct (p x); simpl; congruence.
  - destruct (p x), (p y); done.
Qed.

(** Putting one row adds at most one row to a partition. *)
Lemma partition_insert_length (u : string) (t : gmap (string * string) Row)
    (k : string * string) (v : Row) :
  (length (partition u (<[k := v]> t)) <= S (length (partition u t)))%nat.
Proof.
  unfold partition.
  rewrite <- (insert_delete_eq t k v).
  rewrite (filter_length_perm _ _ _
             (map_to_list_insert (delete k t) k v (lookup_delete_eq t k))).
  assert (length (List.filter
                    (fun kr : string * string * Row => String.eqb kr.1.1 u)
                    (map_to_list (delete k t)))
          <= length (List.filter
                    (fun kr : string * string * Row => String.eqb kr.1.1 u)
                    (map_to_list t)))%nat as Hle.
  { destruct (t !! k) as [v'|] eqn:E.
    - rewrite <- (filter_length_perm _ _ _ (map_to_list_delete t k v' E)).
      simpl. destruct (String.eqb _ _); simpl; lia.
    - by rewrite delete_id. }
  simpl. destruct (String.eqb _ _); simpl; lia.
Qed.

(** What [query] answers when its limit covers the partition. *)
Lemma query_lists_all u limit w :
  faults w = [] -> 1 <= limit ->
  (length (partition u (table w)) <= Z.to_nat limit)%nat ->
  exists rows,
    Svc.query u limit w = (Ok rows, w) /\
    forall s r, table w !! (u, s) = Some r -> r ∈ rows.
Proof.
  intros Hf Hl Hn. unfold Svc.query, bind.
  rewrite (service_call_ok _ Hf).
  destruct (Z.ltb_spec limit 1); [lia|].
  eexists. split; [reflexivity|].
  intros s r Hr. rewrite take_ge.
  - apply list_elem_of_fmap. exists ((u, s), r). split; [done|].
    rewrite (stable_sort_perm sort_key_desc). by apply partition_elem.
  - rewrite length_fmap, (stable_sort_length sort_key_desc). lia.
Qed.

(** X14: with the table attached, no failing call and a limit that is at
    least the number of sessions of the user, [get_user_sessions] lists
    every session of the user and changes nothing. *)
Theorem get_user_sessions_complete self tbl u limit w :
  session_table self = Some tbl -> faults w = [] ->
  1 <= limit ->
  (length (partition u (table w)) <= Z.to_nat limit)%nat ->
  exists rows,
    get_user_sessions self u limit w = (Ok rows, w) /\
    forall s r, table w !! (u, s) = Some r -> r ∈ rows.
Proof.
  intros Ht Hf Hl Hn. unfold get_user_sessions. rewrite Ht.
  destruct (query_lists_all u limit w Hf Hl Hn) as (rows & Eq & Hall).
  exists rows. split; [|done].
  unfold try_except, bind, table_load.
  by rewrite (service_call_ok _ Hf), Eq.
Qed.

Lemma get_user_sessions_complete_witness :
  exists rows,
    get_user_sessions manager "alice" 10 two_sessions
    = (Ok rows, two_sessions) /\
    forall s r, table two_sessions !! ("alice", s) = Some r -> r ∈ rows.
Proof.
  apply (get_user_sessions_complete manager
           (MkTable "customer-support-sessions")).
  - reflexivity.
  - reflexivity.
  - lia.
  - vm_compute. lia.
Defined.

(** X15: with the table attached and no failing call, a session that was
    just created is listed by [get_user_sessions], with its initial row,
    whenever the limit exceeds the number of sessions the user had. *)
Theorem created_session_is_listed self tbl u limit w :
  session_table self = Some tbl -> faults w = [] ->
  (length (partition u (table w)) < Z.to_nat limit)%nat ->
  exists sid w1 rows,
    create_session self u w = (Ok sid, w1) /\
    get_user_sessions self u limit w1 = (Ok rows, w1) /\
    initial_row u sid (clock w) ∈ rows.
Proof.
  intros Ht Hf Hn.
  assert (exists w1,
    create_session self u w
    = (Ok ("session-" ++ uuid_gen w (uuid_ctr w)), w1) /\
    faults w1 = [] /\
    table w1 = <[(u, "session-" ++ uuid_gen w (uuid_ctr w))
                 := initial_row u ("session-" ++ uuid_gen w (uuid_ctr w))
                                (clock w)]> (table w))
    as (w1 & Ec & Hf1 & Ht1).
  { unfold create_session, bind at 1, uuid4. rewrite Ht.
    unfold try_except, bind, datetime_now, put_item, bind.
    rewrite service_call_ok by done. simpl.
    eexists. split; [reflexivity|]. done. }
  assert (length (partition u (table w1)) <= Z.to_nat limit)%nat as Hn1.
  { rewrite Ht1.
    pose proof (partition_insert_length u (table w)
                  (u, "session-" ++ uuid_gen w (uuid_ctr w))
                  (initial_row u ("session-" ++ uuid_gen w (uuid_ctr w))
                               (clock w))).
    lia. }
  destruct (query_lists_all u limit w1 Hf1) as (rows & Eq & Hall);
    [lia|done|].
  eexists _, w1, rows. split; [exact Ec|]. split.
  - unfold get_user_sessions. rewrite Ht.
    unfold try_except, bind, table_load.
    by rewrite (service_call_ok _ Hf1), Eq.
  - apply (Hall ("session-" ++ uuid_gen w (uuid_ctr w))).
    by rewrite Ht1, lookup_insert_eq.
Qed.

Lemma created_session_is_listed_witness :
  exists sid w1 rows,
    create_session manager "alice" empty_world = (Ok sid, w1) /\
    get_user_sessions manager "alice" 10 w1 = (Ok rows, w1) /\
    initial_row "alice" sid (clock empty_world) ∈ rows.
Proof.
  apply (created_session_is_listed manager
           (MkTable "customer-support-sessions")).
  - reflexivity.
  - reflexivity.
  - vm_compute. lia.
Defined.

End Listing.

(* ===================================================================== *)
(** ** Reading: no writes, known preferences                               *)
(* ===================================================================== *)

Section Reading.
Import Env Svc Mgr Logic Spec StrFacts EnvFacts MgrFacts Scenario Props.

Lemma read_only_generate_follow_up_questions self u q :
  read_only (generate_follow_up_questions self u q).
Proof.
  unfold generate_follow_up_questions.
  apply read_only_bind; [apply read_only_get_user_preferences|].
  intros. apply read_only_ret.
Qed.

(** X16: the five reading operations write nothing, whether they succeed
    or fall back to their default: the event log, the metadata table, the
    clock and the UUID source are the same afterwards. *)
Theorem reads_write_nothing self u s q n limit w :
  frame w (snd (get_session_messages self u s w)) /\
  frame w (snd (get_conversation_context self u s q n w)) /\
  frame w (snd (get_user_sessions self u limit w)) /\
  frame w (snd (get_user_preferences self u w)) /\
  frame w (snd (generate_follow_up_questions self u q w)).
Proof.
  split_and!.
  - apply read_only_get_session_messages.
  - apply read_only_get_conversation_context.
  - apply read_only_get_user_sessions.
  - apply read_only_get_user_preferences.
  - apply read_only_generate_follow_up_questions.
Qed.

Lemma snoc_within {A} (l k : list A) x : l ⊆ k -> x ∈ k -> (l ++ [x])%list ⊆ k.
Proof.
  intros Hl Hx y [Hy | Hy]%elem_of_app; [by apply Hl|].
  apply list_elem_of_singleton in Hy. by subst.
Qed.

Lemma nil_within {A} (k : list A) : [] ⊆ k.
Proof. intros x Hx. by apply elem_of_nil in Hx. Qed.

Lemma note_message_vocabulary p msg :
  known_preferences p -> known_preferences (note_message p msg).
Proof.
  intros (Hc & Hr & Ht & Hi). unfold note_message.
  destruct (Str.contains "warranty" _).
  { split_and!; try done. simpl. apply snoc_within; [done | by left]. }
  destruct (_ || _).
  { split_and!; try done. simpl.
    apply snoc_within; [done | by right; left]. }
  destruct (_ || _).
  { split_and!; try done. simpl. apply snoc_within; [done | by left]. }
  done.
Qed.

Lemma fold_note_message_vocabulary l p :
  known_preferences p -> known_preferences (fold_left note_message l p).
Proof.
  revert p. induction l as [|m l IH]; intros p Hp; simpl; [done|].
  by apply IH, note_message_vocabulary.
Qed.

(** X17: whatever was stored and in whatever order the process iterates
    its sets, the preferences [get_user_preferences] returns have the
    style [professional] and the length [medium], no issue other than
    [warranty] and [account], no topic other than [space_data], and no
    issue or topic twice. *)
Theorem get_user_preferences_vocabulary self u w :
  exists p w',
    get_user_preferences self u w = (Ok p, w') /\
    known_preferences p /\
    NoDup (preferred_topics p) /\ NoDup (common_issues p).
Proof.
  unfold get_user_preferences, bind.
  destruct (total_get_user_sessions self u 5 w) as (rows & w1 & ->).
  destruct (total_gather_messages self u rows [] w1) as (msgs & w2 & ->).
  eexists _, _. split; [reflexivity|].
  set (l := slice_from (-20) (List.filter is_user msgs)). clearbody l.
  assert (Hd : known_preferences default_preferences).
  { split_and!; try done; apply nil_within. }
  destruct (fold_note_message_vocabulary l _ Hd) as (Hc & Hr & Ht & Hi).
  unfold remove_duplicates.
  split; [|split; apply list_set_NoDup].
  split_and!; [exact Hc | exact Hr | |].
  - intros x Hx. apply Ht, (list_set_elem (set_rank w2)). exact Hx.
  - intros x Hx. apply Hi, (list_set_elem (set_rank w2)). exact Hx.
Qed.


End Reading.

(* ===================================================================== *)
(** ** Deleting: what [delete_session] touches                             *)
(* ===================================================================== *)

Section DeletionFrame.
Import Env Svc Mgr Logic Spec StrFacts EnvFacts MgrFacts Scenario Props.

Lemma filter_true {A} (l : list A) : List.filter (fun _ => true) l = l.
Proof. induction l; simpl; congruence. Qed.

Lemma only_session_removed_refl self u s w w' :
  ev_log w' = ev_log w -> only_session_removed self u s w w'.
Proof.
  intros H. exists (fun _ => true). split; [by rewrite filter_true|done].
Qed.

Lemma only_session_removed_trans self u s w1 w2 w3 :
  only_session_removed self u s w1 w2 ->
  only_session_removed self u s w2 w3 ->
  only_session_removed self u s w1 w3.
Proof.
  intros (k1 & H1 & K1) (k2 & H2 & K2).
  exists (fun se => k1 se && k2 se). split.
  - by rewrite H2, H1, filter_twice.
  - intros se [H|H]%andb_false_iff; auto.
Qed.

Lemma is_event_in_session self mid u s eid se :
  memory_id self = Some mid ->
  is_event mid (_sanitize_actor_id u) s eid se = true ->
  in_session self u s se.
Proof.
  intros Hm. unfold is_event, same_session, in_session.
  rewrite !andb_true_iff, !String.eqb_eq.
  intros [[[-> ->] ->] _]. done.
Qed.

Lemma delete_step_frame self u s ev c w :
  exists c' w',
    try_except
      (with_client self
         (delete_event (memory_id self) s (eventId ev) (_sanitize_actor_id u))
       ;;; ret (c + 1))
      (fun _ => ret c) w = (Ok c', w') /\
    only_session_removed self u s w w'.
Proof.
  unfold try_except, bind, with_client.
  destruct (memory_client self);
    [|eexists _, _; split; [reflexivity|by apply only_session_removed_refl]].
  unfold delete_event, bind, service_call, require_memory, ret, raise.
  destruct (memory_id self) as [mid|] eqn:Hm;
    destruct (faults w) as [|[] fs] eqn:Ef; simpl;
    try (eexists _, _; split;
         [reflexivity|by apply only_session_removed_refl]).
  - destruct (existsb _ _) eqn:Ex; simpl; eexists _, _;
      (split; [reflexivity|]); [|by apply only_session_removed_refl].
    eexists. split; [reflexivity|]. intros se Hk%negb_false_iff.
    by eapply is_event_in_session.
  - destruct (existsb _ _) eqn:Ex; simpl; eexists _, _;
      (split; [reflexivity|]); [|by apply only_session_removed_refl].
    eexists. split; [reflexivity|]. intros se Hk%negb_false_iff.
    by eapply is_event_in_session.
Qed.

Lemma delete_events_frame self u s events c w :
  exists c' w',
    delete_events self s (_sanitize_actor_id u) events c w = (Ok c', w') /\
    only_session_removed self u s w w'.
Proof.
  revert c w. induction events as [|ev events IH]; intros c w.
  - eexists _, _. split; [reflexivity|]. by apply only_session_removed_refl.
  - cbn [delete_events].
    destruct (delete_step_frame self u s ev c w) as (c1 & w1 & E1 & H1).
    rewrite (bind_ok _ _ _ _ _ E1).
    destruct (IH c1 w1) as (c2 & w2 & E2 & H2).
    exists c2, w2. split; [done|]. by eapply only_session_removed_trans.
Qed.

(** X20: whichever calls fail, [delete_session] never raises, adds no
    event, removes no event of another session, and changes no metadata
    row but that of the session. *)
Theorem delete_session_touches_one_session self u s w :
  exists b w',
    delete_session self u s w = (Ok b, w') /\
    (forall se, In se (ev_log w') -> In se (ev_log w)) /\
    (forall se, In se (ev_log w) -> ~ in_session self u s se ->
                In se (ev_log w')) /\
    (forall k, k <> (u, s) -> table w' !! k = table w !! k).
Proof.
  assert (forall w', only_session_removed self u s w w' ->
            (forall se, In se (ev_log w') -> In se (ev_log w)) /\
            (forall se, In se (ev_log w) -> ~ in_session self u s se ->
                        In se (ev_log w'))) as Huse.
  { intros w' (keep & -> & Hk). split.
    - intros se [H _]%filter_In. done.
    - intros se Hin Hn. apply filter_In. split; [done|].
      destruct (keep se) eqn:E; [done|]. destruct Hn. by apply Hk. }
  unfold delete_session, try_except.
  unfold bind at 1. unfold with_client.
  destruct (memory_client self).
  2:{ eexists _, _. split; [reflexivity|]. simpl.
      split_and!; [|  |done]; apply Huse;
        by apply only_session_removed_refl. }
  pose proof (read_only_list_events (memory_id self)
                (_sanitize_actor_id u) s 100 w) as F.
  destruct (list_events (memory_id self) (_sanitize_actor_id u) s 100 w)
    as [[events|e] w0] eqn:El;
    destruct F as (Hl0 & _ & _ & Ht0 & _); simpl in Hl0, Ht0.
  2:{ eexists _, _. split; [reflexivity|]. simpl.
      split_and!; [| |by rewrite Ht0]; apply Huse;
        by apply only_session_removed_refl. }
  destruct (delete_events_frame self u s events 0 w0)
    as (c & w1 & E1 & H1).
  destruct (delete_events_count self s (_sanitize_actor_id u) events 0 w0)
    as (c' & w1' & E1' & Ht1 & _).
  rewrite E1 in E1'. injection E1' as <- <-.
  rewrite (bind_ok _ _ _ _ _ E1).
  assert (only_session_removed self u s w w1) as H01.
  { eapply only_session_removed_trans; [|exact H1].
    by apply only_session_removed_refl. }
  destruct (Huse _ H01) as [Ha Hb].
  destruct (session_table self); unfold bind, try_except, ret.
  - unfold delete_item, bind, service_call.
    destruct (faults w1) as [|[] fs]; simpl; eexists _, _;
      (split; [reflexivity|]); simpl; (split_and!; [done|done|]);
      intros k Hk; rewrite ?lookup_delete_ne by done; congruence.
  - eexists _, _. split; [reflexivity|]. split_and!; [done|done|].
    intros k _. congruence.
Qed.

(** X21: deleting a session that has a metadata row but no events (one
    that was created and never used) deletes the row and still returns
    false. *)
Theorem delete_empty_session_reports_failure self mid tbl u s w :
  is_Some (memory_client self) -> memory_id self = Some mid ->
  session_table self = Some tbl -> faults w = [] ->
  (forall l, ev_order w l ≡ₚ l) ->
  session_events mid (_sanitize_actor_id u) s w = [] ->
  exists w',
    delete_session self u s w = (Ok false, w') /\
    ev_log w' = ev_log w /\
    table w' = delete (u, s) (table w).
Proof.
  intros [c Hc] Hm Ht Hf Hperm Hnone.
  unfold delete_session, try_except. unfold bind at 1.
  unfold with_client. rewrite Hc.
  unfold list_events, bind at 1 2.
  rewrite (service_call_ok _ Hf), Hm. simpl.
  rewrite Hnone.
  assert (ev_order w [] = []) as ->
    by (apply Permutation_nil; symmetry; apply Hperm).
  simpl. unfold bind, ret. simpl. rewrite Ht.
  unfold try_except, delete_item, bind.
  rewrite (service_call_ok _ Hf). simpl.
  eexists. split; [reflexivity|]. done.
Qed.

Lemma delete_empty_session_reports_failure_witness :
  exists sid w1 w2,
    create_session manager "alice" empty_world = (Ok sid, w1) /\
    table w1 !! ("alice", sid)
    = Some (initial_row "alice" sid (clock empty_world)) /\
    delete_session manager "alice" sid w1 = (Ok false, w2) /\
    table w2 !! ("alice", sid) = None.
Proof.
  exists "session-f47ac10b-58cc-4372-a567-0e02b2c3d479",
    (after (create_session manager "alice") empty_world).
  destruct (delete_empty_session_reports_failure manager
              "customerSupportMemory-a1b2c3"
              (MkTable "customer-support-sessions") "alice"
              "session-f47ac10b-58cc-4372-a567-0e02b2c3d479"
              (after (create_session manager "alice") empty_world))
    as (w2 & Hd & _ & Ht).
  - by eexists.
  - reflexivity.
  - reflexivity.
  - reflexivity.
  - intros l. simpl. symmetry. apply Permutation_rev.
  - reflexivity.
  - exists w2. split; [reflexivity|]. split; [reflexivity|].
    split; [exact Hd|]. rewrite Ht. apply lookup_delete_eq.
Defined.

Lemma delete_session_complete_witness :
  exists w1 w2,
    delete_session manager "alice" "session-1"
      (chat "alice" "session-1" 1 empty_world) = (Ok true, w1) /\
    get_session_messages manager "alice" "session-1" w1 = (Ok [], w2).
Proof.
  destruct (delete_session_complete manager "customerSupportMemory-a1b2c3"
              "alice" "session-1" (chat "alice" "session-1" 1 empty_world))
    as (w1 & w2 & Hd & _ & Hg).
  - by eexists.
  - reflexivity.
  - reflexivity.
  - intros l. simpl. symmetry. apply Permutation_rev.
  - discriminate.
  - vm_compute. lia.
  - exists w1, w2. split; [exact Hd | exact Hg].
Defined.

End DeletionFrame.
